(** * DoclingRemoteComponent.process_files

    A verification development for
    [src/backend/base/langflow/components/docling/docling_remote.py]:
    the conversion pipeline of one document ([_convert_document]: submit,
    poll with a bounded number of tolerated server errors, fetch, validate)
    and the batch operation around it ([process_files]: dispatch on a
    thread pool, collection of the futures in submission order). *)

From stdpp Require Import base list strings.
From Stdlib Require Import ZArith Lia.

Set Warnings "-register-all,-notation-for-abbreviation".

Local Open Scope string_scope.
Local Open Scope list_scope.
Local Open Scope Z_scope.

(** ** Python values

    What [response.json()] hands back: the Python image of a JSON text.
    A [PDict] is the parsed dictionary (insertion ordered, one binding
    per key). *)

Inductive pyval : Type :=
| PNone
| PBool (b : bool)
| PInt (z : Z)
| PFloat (literal : string)
| PStr (s : string)
| PList (items : list pyval)
| PDict (bindings : list (string * pyval)).

(** Exceptions that can leave the code under study.  [ValidationError] is
    handled inside [_convert_document] and never leaves it. *)

Inductive exn : Type :=
| HTTPStatusError (status_code : Z)
| RequestError
| KeyError (key : string)
| ValueError
| TypeError
| OSError.

(** How a call ends.  [Blocked] stands for a call that never comes back:
    the scripted server has no reply left for the request it is waiting
    on. *)

Inductive outcome (A : Type) : Type :=
| Return (a : A)
| Raise (e : exn)
| Blocked.

Arguments Return {A} a.
Arguments Raise {A} e.
Arguments Blocked {A}.

Fixpoint dict_get (key : string) (d : list (string * pyval)) : option pyval :=
  match d with
  | [] => None
  | (k, v) :: d' => if String.eqb k key then Some v else dict_get key d'
  end.

(** [v[key]] for a string key: a missing key of a dict is a [KeyError],
    subscripting anything else with a string is a [TypeError]. *)

Definition subscript (v : pyval) (key : string) : exn + pyval :=
  match v with
  | PDict d =>
      match dict_get key d with
      | Some x => inr x
      | None => inl (KeyError key)
      end
  | _ => inl TypeError
  end.

Definition is_str (s : string) (v : pyval) : bool :=
  match v with
  | PStr s' => String.eqb s' s
  | _ => false
  end.

Definition is_substring (needle hay : string) : bool :=
  match String.index 0 needle hay with
  | Some _ => true
  | None => false
  end.

(** [key in v] for a string key: key membership for a dict, element
    membership for a list, substring test for a str, [TypeError] for the
    values that are not containers. *)

Definition contains (key : string) (v : pyval) : exn + bool :=
  match v with
  | PDict d =>
      inr (match dict_get key d with Some _ => true | None => false end)
  | PList items => inr (existsb (is_str key) items)
  | PStr s => inr (is_substring key s)
  | _ => inl TypeError
  end.

Definition is_none (v : pyval) : bool :=
  match v with
  | PNone => true
  | _ => false
  end.

(** ** The HTTP exchange, as one pipeline sees it *)

Inductive request : Type :=
| POST_convert_source_async (payload : pyval)
    (* POST {base_url}/convert/source/async, json=payload *)
| GET_status_poll (task_id : pyval)
    (* GET {base_url}/status/poll/{task_id} *)
| GET_result (task_id : pyval).
    (* GET {base_url}/result/{task_id} *)

Record response : Type := Response {
  status_code : Z;
  json : option pyval   (* None: the body does not parse, json() raises *)
}.

(** A reply of the transport: a response, or no response at all
    ([httpx.RequestError]: connection refused, timeout, ...). *)

Inductive reply : Type :=
| Ok (r : response)
| Failed.

Inductive log_msg : Type :=
| TooManyHttpFailures (status_code : Z)
    (* "The status requests got a http response {status_code} too many times." *)
| NoJsonDocument
    (* "No JSON DoclingDocument found in the result." *)
| ValidationFailed (e : string)
    (* "Error validating the document. {e}" *)
| ErrorOccurred.
    (* "Error occurred" *)

Inductive event : Type :=
| Request (rq : request)
| Sleep (seconds : Z)
| Log (msg : log_msg).

(** httpx: [Response.is_success] holds of the 2xx codes, and
    [Response.raise_for_status] raises [HTTPStatusError] when it does
    not hold. *)

Definition is_success (r : response) : bool :=
  (200 <=? status_code r) && (status_code r <=? 299).

Definition raise_for_status (r : response) : option exn :=
  if is_success r then None else Some (HTTPStatusError (status_code r)).

(** ** Collaborators outside the file

    The component relies on code that lives elsewhere: [pathlib] and
    [base64], the document schema of [docling_core], and the
    [BaseFileComponent] base class.  They are taken as interfaces. *)

Class Documents : Type := {
  Path : Type;
  path_str : Path -> string;                 (* str(file_path) *)
  path_name : Path -> string;                (* file_path.name *)
  read_bytes : Path -> option (list Byte.byte);
    (* file_path.read_bytes(); None: the read raises OSError *)
  b64encode : list Byte.byte -> string;      (* base64.b64encode(..).decode() *)
  DoclingDocument : Type;
  model_validate : pyval -> string + DoclingDocument;
    (* DoclingDocument.model_validate; inl e: ValidationError e *)
}.

(** [Data(data={"doc": doc, "file_path": str(file_path)})] *)

Record Data `{Documents} : Type := mkData {
  doc : DoclingDocument;
  file_path : string
}.

Arguments mkData {_} doc file_path.

Class FileComponent `{Documents} : Type := {
  BaseFile : Type;
  path : BaseFile -> option Path;            (* file.path *)
  rollup_data : list BaseFile -> list (option Data) -> list BaseFile
}.

Section Pipeline.

Context `{Documents}.

Definition MAX_500_RETRIES : Z := 5.

(** Prefix the events of a computation with one more event. *)

Definition emit {A : Type} (ev : event) (k : list event * A)
  : list event * A :=
  (ev :: fst k, snd k).

(** ** The polling loop (lines 114-124)

    [client] is the list of replies the server will give to the
    successive requests of this pipeline.  The loop ends by falling out
    of the [while] with the current [task] and the remaining replies, by
    the [return None] of line 121, by an exception, or never. *)

Inductive loop_end : Type :=
| LoopExit (task : pyval) (client : list reply)
| LoopReturnNone
| LoopRaise (e : exn)
| LoopBlocked.

Definition retry_status_code : Z := 500.

Definition is_terminal (task_status : pyval) : bool :=
  is_str "success" task_status || is_str "failure" task_status.

Fixpoint poll_loop (client : list reply) (task : pyval) (http_failures : Z)
  {struct client} : list event * loop_end :=
  match subscript task "task_status" with
  | inl e => ([], LoopRaise e)
  | inr task_status =>
      if is_terminal task_status then ([], LoopExit task client)
      else
        emit (Sleep 2)
          match subscript task "task_id" with
          | inl e => ([], LoopRaise e)
          | inr task_id =>
              emit (Request (GET_status_poll task_id))
                match client with
                | [] => ([], LoopBlocked)
                | Failed :: _ => ([], LoopRaise RequestError)
                | Ok response :: client' =>
                    if status_code response >? retry_status_code then
                      let http_failures := http_failures + 1 in
                      if http_failures >? MAX_500_RETRIES then
                        ([Log (TooManyHttpFailures (status_code response))],
                         LoopReturnNone)
                      else poll_loop client' task http_failures
                    else
                      match json response with
                      | None => ([], LoopRaise ValueError)
                      | Some task' => poll_loop client' task' http_failures
                      end
                end
          end
  end.

(** ** After the loop (lines 126-139): fetch the result and validate it *)

Definition fetch_result (client : list reply) (file_path : Path)
  (task : pyval) : list event * outcome (option Data) :=
  match subscript task "task_id" with
  | inl e => ([], Raise e)
  | inr task_id =>
      emit (Request (GET_result task_id))
        match client with
        | [] => ([], Blocked)
        | Failed :: _ => ([], Raise RequestError)
        | Ok result_resp :: _ =>
            match raise_for_status result_resp with
            | Some e => ([], Raise e)
            | None =>
                match json result_resp with
                | None => ([], Raise ValueError)
                | Some result =>
                    match subscript result "document" with
                    | inl e => ([], Raise e)
                    | inr document =>
                        match contains "json_content" document with
                        | inl e => ([], Raise e)
                        | inr false => ([Log NoJsonDocument], Return None)
                        | inr true =>
                            match subscript document "json_content" with
                            | inl e => ([], Raise e)
                            | inr json_content =>
                                if is_none json_content then
                                  ([Log NoJsonDocument], Return None)
                                else
                                  match model_validate json_content with
                                  | inr doc =>
                                      ([], Return (Some (mkData doc (path_str file_path))))
                                  | inl e =>
                                      ([Log (ValidationFailed e)], Return None)
                                  end
                            end
                        end
                    end
                end
            end
        end
  end.

(** ** One pipeline (lines 101-139) *)

Definition _convert_document (client : list reply) (file_path : Path)
  (options : pyval) : list event * outcome (option Data) :=
  match read_bytes file_path with
  | None => ([], Raise OSError)
  | Some bytes =>
      let encoded_doc := b64encode bytes in
      let payload :=
        PDict [("options", options);
               ("file_sources",
                PList [PDict [("base64_string", PStr encoded_doc);
                              ("filename", PStr (path_name file_path))]])] in
      emit (Request (POST_convert_source_async payload))
        match client with
        | [] => ([], Blocked)
        | Failed :: _ => ([], Raise RequestError)
        | Ok response :: client =>
            match raise_for_status response with
            | Some e => ([], Raise e)
            | None =>
                match json response with
                | None => ([], Raise ValueError)
                | Some task =>
                    let http_failures := 0 in
                    match poll_loop client task http_failures with
                    | (evs, LoopReturnNone) => (evs, Return None)
                    | (evs, LoopRaise e) => (evs, Raise e)
                    | (evs, LoopBlocked) => (evs, Blocked)
                    | (evs, LoopExit task client) =>
                        let (evs', r) := fetch_result client file_path task in
                        (evs ++ evs', r)
                    end
                end
            end
        end
  end.

(** ** Vocabulary for statements about a pipeline *)

(** A poll response that counts against the retry budget (line 117). *)

Definition is_high (r : response) : bool :=
  status_code r >? retry_status_code.

(** A task the loop goes on polling: its status is there and is not
    terminal, and it names the task to poll. *)

Definition is_pending (task : pyval) : bool :=
  match subscript task "task_status", subscript task "task_id" with
  | inr task_status, inr _ => negb (is_terminal task_status)
  | _, _ => false
  end.

(** A poll response after which the loop polls again, as long as the
    retry budget lasts. *)

Definition keeps_polling (r : response) : bool :=
  is_high r || match json r with
               | Some task => is_pending task
               | None => false
               end.

(** The events of one wait-and-poll cycle. *)

Definition one_poll (task_id : pyval) : list event :=
  [Sleep 2; Request (GET_status_poll task_id)].

Definition is_poll (ev : event) : bool :=
  match ev with
  | Sleep _ | Request (GET_status_poll _) => true
  | _ => false
  end.

Definition submission (file_path : Path) (options : pyval) (bytes : list Byte.byte)
  : event :=
  Request (POST_convert_source_async
    (PDict [("options", options);
            ("file_sources",
             PList [PDict [("base64_string", PStr (b64encode bytes));
                           ("filename", PStr (path_name file_path))]])])).

(** The longest run of consecutive responses above the threshold, the
    quantity a consecutive-error budget would bound. *)

Fixpoint longest_high_run (rs : list response) (current best : nat) : nat :=
  match rs with
  | [] => Nat.max current best
  | r :: rs' =>
      if is_high r then longest_high_run rs' (S current) best
      else longest_high_run rs' 0%nat (Nat.max current best)
  end.

(** How the pipeline ends, given how its loop ended. *)

Definition conclude (file_path : Path) (l : list event * loop_end)
  : outcome (option Data) :=
  match snd l with
  | LoopReturnNone => Return None
  | LoopRaise e => Raise e
  | LoopBlocked => Blocked
  | LoopExit task client => snd (fetch_result client file_path task)
  end.

(** The transport and protocol errors of one pipeline, located in the
    replies it receives: no response or a non-2xx response to the
    submission or to the result fetch, no response to a poll, and a body
    the code reads (submission, poll at or below the threshold, result)
    that does not parse or lacks the key read from it. *)

Inductive fault : list reply -> exn -> Prop :=
| submit_failed client :
    fault (Failed :: client) RequestError
| submit_status sub client :
    is_success sub = false ->
    fault (Ok sub :: client) (HTTPStatusError (status_code sub))
| submit_unparsable sub client :
    is_success sub = true ->
    json sub = None ->
    fault (Ok sub :: client) ValueError
| submit_no_status sub d client :
    is_success sub = true ->
    json sub = Some (PDict d) ->
    dict_get "task_status" d = None ->
    fault (Ok sub :: client) (KeyError "task_status")
| submit_no_id sub d task_status client :
    is_success sub = true ->
    json sub = Some (PDict d) ->
    dict_get "task_status" d = Some task_status ->
    dict_get "task_id" d = None ->
    fault (Ok sub :: client) (KeyError "task_id")
| poll_failed sub task polls evs client :
    is_success sub = true ->
    json sub = Some task ->
    poll_loop polls task 0 = (evs, LoopBlocked) ->
    fault (Ok sub :: polls ++ Failed :: client) RequestError
| poll_unparsable sub task polls evs r client :
    is_success sub = true ->
    json sub = Some task ->
    poll_loop polls task 0 = (evs, LoopBlocked) ->
    is_high r = false ->
    json r = None ->
    fault (Ok sub :: polls ++ Ok r :: client) ValueError
| poll_no_status sub task polls evs r d client :
    is_success sub = true ->
    json sub = Some task ->
    poll_loop polls task 0 = (evs, LoopBlocked) ->
    is_high r = false ->
    json r = Some (PDict d) ->
    dict_get "task_status" d = None ->
    fault (Ok sub :: polls ++ Ok r :: client) (KeyError "task_status")
| poll_no_id sub task polls evs r d task_status client :
    is_success sub = true ->
    json sub = Some task ->
    poll_loop polls task 0 = (evs, LoopBlocked) ->
    is_high r = false ->
    json r = Some (PDict d) ->
    dict_get "task_status" d = Some task_status ->
    dict_get "task_id" d = None ->
    fault (Ok sub :: polls ++ Ok r :: client) (KeyError "task_id")
| result_failed sub task polls evs task_end task_id client :
    is_success sub = true ->
    json sub = Some task ->
    poll_loop polls task 0 = (evs, LoopExit task_end []) ->
    subscript task_end "task_id" = inr task_id ->
    fault (Ok sub :: polls ++ Failed :: client) RequestError
| result_status sub task polls evs task_end task_id r client :
    is_success sub = true ->
    json sub = Some task ->
    poll_loop polls task 0 = (evs, LoopExit task_end []) ->
    subscript task_end "task_id" = inr task_id ->
    is_success r = false ->
    fault (Ok sub :: polls ++ Ok r :: client) (HTTPStatusError (status_code r))
| result_unparsable sub task polls evs task_end task_id r client :
    is_success sub = true ->
    json sub = Some task ->
    poll_loop polls task 0 = (evs, LoopExit task_end []) ->
    subscript task_end "task_id" = inr task_id ->
    is_success r = true ->
    json r = None ->
    fault (Ok sub :: polls ++ Ok r :: client) ValueError
| result_no_document sub task polls evs task_end task_id r d client :
    is_success sub = true ->
    json sub = Some task ->
    poll_loop polls task 0 = (evs, LoopExit task_end []) ->
    subscript task_end "task_id" = inr task_id ->
    is_success r = true ->
    json r = Some (PDict d) ->
    dict_get "document" d = None ->
    fault (Ok sub :: polls ++ Ok r :: client) (KeyError "document").

End Pipeline.

(** ** The batch operation (lines 96-171)

    [process_files] runs its pipelines on a [ThreadPoolExecutor], so its
    behaviour depends on how the threads are scheduled.  It is given as
    a machine: a state, and one move at a time of the calling thread or
    of a worker.  The executor is Python's: [submit] queues a callable,
    at most [max_workers] callables run at a time and they start in
    submission order, [future.result()] waits for the future and
    re-raises the exception it holds, and leaving the [with] block waits
    for every submitted callable ([shutdown(wait=True)]). *)

Fixpoint dict_set (key : string) (v : pyval) (d : list (string * pyval))
  : list (string * pyval) :=
  match d with
  | [] => [(key, v)]
  | (k, x) :: d' =>
      if String.eqb k key then (k, v) :: d' else (k, x) :: dict_set key v d'
  end.

(** [{**d, **extra}] *)

Definition dict_update (d extra : list (string * pyval))
  : list (string * pyval) :=
  fold_left (fun acc kv => dict_set (fst kv) (snd kv) acc) extra d.

Record Component : Type := {
  api_url : string;
  max_concurrency : Z;
  docling_serve_opts : list (string * pyval)
}.

(** A callable handed to the executor, reduced to what it still has to
    do: the events it will perform, one at a time, and how it ends. *)

Record job `{Documents} : Type := Job {
  todo : list event;
  result : outcome (option Data)
}.

Arguments Job {_} todo result.

(** [concurrent.futures.Future], from submission to completion. *)

Inductive future `{Documents} : Type :=
| Queued (j : job)       (* submitted, no worker has picked it up *)
| Running (j : job)      (* a worker thread is executing it *)
| Finished (r : outcome (option Data)).   (* done() *)

(** Who moves next: the thread that called [process_files], or the
    worker in charge of the [k]-th submitted future. *)

Inductive actor : Type :=
| Main
| Worker (k : nat).

(** Where an event comes from: the calling thread or the pipeline of the
    input at index [i]. *)

Inductive origin : Type :=
| caller
| pipeline (i : nat).

Section Batch.

Context `{FileComponent}.

Variable self : Component.

(** The remote service: [server i] lists the replies it gives, in
    order, to the requests of the pipeline converting input [i].  The
    replies to one pipeline do not depend on how its requests interleave
    with those of the other pipelines. *)

Variable server : nat -> list reply.

Variable file_list : list BaseFile.

Definition docling_options : pyval :=
  PDict (dict_update
           [("to_formats", PList [PStr "json"]);
            ("image_export_mode", PStr "placeholder");
            ("return_as_file", PBool false)]
           (docling_serve_opts self)).

(** Control point of the calling thread. *)

Inductive main_pc : Type :=
| Dispatching (i : nat)
    (* line 151, about to handle [file_list[i]] *)
| Collecting (k : nat)
    (* line 158, about to handle [futures[k]] *)
| Leaving (pending : option exn)
    (* line 149, leaving the [with] block: the executor shuts down and
       waits; [pending] is the exception in flight, if any *)
| Returned (r : outcome (list BaseFile)).

Record state : Type := mkState {
  pc : main_pc;
  processed_data : list (option Data);
  futures : list (nat * future);
  trace : list (origin * event)     (* oldest first *)
}.

(** [ThreadPoolExecutor(max_workers=0)] raises [ValueError]. *)

Definition init : state :=
  if max_concurrency self <=? 0 then mkState (Returned (Raise ValueError)) [] [] []
  else mkState (Dispatching 0) [] [] [].

(** [executor.submit(_convert_document, client, file.path, docling_options)] *)

Definition submit (i : nat) (file_path : Path) : future :=
  let (evs, r) := _convert_document (server i) file_path docling_options in
  Queued (Job evs r).

(** The [except] clause of lines 162-167. *)

Definition caught (e : exn) : bool :=
  match e with
  | HTTPStatusError _ | RequestError | KeyError _ | ValueError => true
  | TypeError | OSError => false
  end.

Definition is_finished (f : nat * future) : bool :=
  match snd f with
  | Finished _ => true
  | _ => false
  end.

Definition is_running (f : nat * future) : bool :=
  match snd f with
  | Running _ => true
  | _ => false
  end.

Definition is_queued (f : nat * future) : bool :=
  match snd f with
  | Queued _ => true
  | _ => false
  end.

Definition main_step (s : state) : option state :=
  match pc s with
  | Dispatching i =>
      match file_list !! i with
      | None => Some (mkState (Collecting 0) (processed_data s) (futures s) (trace s))
      | Some file =>
          match path file with
          | None =>
              Some (mkState (Dispatching (S i)) (processed_data s ++ [None])
                      (futures s) (trace s))
          | Some p =>
              Some (mkState (Dispatching (S i)) (processed_data s)
                      (futures s ++ [(i, submit i p)]) (trace s))
          end
      end
  | Collecting k =>
      match futures s !! k with
      | None => Some (mkState (Leaving None) (processed_data s) (futures s) (trace s))
      | Some (_index, Finished (Return result_data)) =>
          Some (mkState (Collecting (S k)) (processed_data s ++ [result_data])
                  (futures s) (trace s))
      | Some (_index, Finished (Raise e)) =>
          Some (mkState (Leaving (Some e)) (processed_data s) (futures s)
                  (if caught e then trace s ++ [(caller, Log ErrorOccurred)]
                   else trace s))
      | Some _ => None      (* future.result() is still waiting *)
      end
  | Leaving pending =>
      if forallb is_finished (futures s) then
        Some (mkState
                (Returned match pending with
                          | Some e => Raise e
                          | None => Return (rollup_data file_list (processed_data s))
                          end)
                (processed_data s) (futures s) (trace s))
      else None             (* shutdown(wait=True) is still waiting *)
  | Returned _ => None
  end.

(** A queued callable starts when a worker is free and nothing was
    queued before it; a running one performs its next event, or
    completes its future when nothing is left to do. *)

Definition worker_step (k : nat) (s : state) : option state :=
  match futures s !! k with
  | Some (i, Queued j) =>
      if (Z.of_nat (length (List.filter is_running (futures s))) <? max_concurrency self)
         && negb (existsb is_queued (take k (futures s)))
      then Some (mkState (pc s) (processed_data s)
                   (<[k := (i, Running j)]> (futures s)) (trace s))
      else None
  | Some (i, Running (Job (ev :: evs) r)) =>
      Some (mkState (pc s) (processed_data s)
              (<[k := (i, Running (Job evs r))]> (futures s))
              (trace s ++ [(pipeline i, ev)]))
  | Some (i, Running (Job [] (Return d))) =>
      Some (mkState (pc s) (processed_data s)
              (<[k := (i, Finished (Return d))]> (futures s)) (trace s))
  | Some (i, Running (Job [] (Raise e))) =>
      Some (mkState (pc s) (processed_data s)
              (<[k := (i, Finished (Raise e))]> (futures s)) (trace s))
  | _ => None
  end.

Definition step (a : actor) (s : state) : option state :=
  match a with
  | Main => main_step s
  | Worker k => worker_step k s
  end.

(** Run a schedule; an actor that cannot move leaves the state as it is. *)

Fixpoint run (sched : list actor) (s : state) : state :=
  match sched with
  | [] => s
  | a :: sched' => run sched' (default s (step a s))
  end.

(** The call of [process_files] under the schedule [sched]. *)

Definition process_files (sched : list actor) : state := run sched init.

(** ** Vocabulary for statements about a batch *)

(** The pipeline of input [i], from its first event to its end. *)

Definition behaviour (a : nat * Path) : list event * outcome (option Data) :=
  _convert_document (server (fst a)) (snd a) docling_options.

(** The inputs that get a pipeline, with their index, in input order. *)

Definition admitted (files : list BaseFile) : list (nat * Path) :=
  omap (fun f => pair (fst f) <$> path (snd f)) (imap pair files).

Definition no_path (file : BaseFile) : bool :=
  match path file with
  | None => true
  | Some _ => false
  end.

(** The number of inputs without a path. *)

Definition absent (files : list BaseFile) : nat :=
  length (List.filter no_path files).

(** How the admitted pipelines end, in submission order. *)

Definition outcomes : list (outcome (option Data)) :=
  map (fun a => snd (behaviour a)) (admitted file_list).

Definition is_return (r : outcome (option Data)) : bool :=
  match r with
  | Return _ => true
  | _ => false
  end.

Definition returned_values (rs : list (outcome (option Data)))
  : list (option Data) :=
  omap (fun r => match r with Return d => Some d | _ => None end) rs.

(** The events of the pipeline of input [i] in a trace. *)

Definition events_of (i : nat) (tr : list (origin * event)) : list event :=
  omap (fun oe => match fst oe with
                  | pipeline j => if Nat.eqb j i then Some (snd oe) else None
                  | caller => None
                  end) tr.

(** A future agrees with the pipeline it was submitted for: what it
    has done so far and what it still has to do make up the pipeline. *)

Definition future_ok (tr : list (origin * event)) (a : nat * Path)
  (f : nat * future) : Prop :=
  fst f = fst a /\
  match snd f with
  | Queued j =>
      j = Job (fst (behaviour a)) (snd (behaviour a)) /\ events_of (fst a) tr = []
  | Running j =>
      result j = snd (behaviour a) /\
      events_of (fst a) tr ++ todo j = fst (behaviour a)
  | Finished r =>
      r = snd (behaviour a) /\ r <> Blocked /\
      events_of (fst a) tr = fst (behaviour a)
  end.

(** The number of inputs the first loop has been through. *)

Definition dispatched (s : state) : nat :=
  match pc s with
  | Dispatching i => i
  | _ => length file_list
  end.

(** What the calling thread has achieved at its control point. *)

Definition main_ok (s : state) : Prop :=
  match pc s with
  | Dispatching i =>
      (i <= length file_list)%nat /\
      processed_data s = replicate (absent (take i file_list)) None
  | Collecting k =>
      (k <= length (futures s))%nat /\
      forallb is_return (take k outcomes) = true /\
      processed_data s =
        replicate (absent file_list) None ++ returned_values (take k outcomes)
  | Leaving None =>
      forallb is_return outcomes = true /\
      processed_data s =
        replicate (absent file_list) None ++ returned_values outcomes
  | Leaving (Some e) =>
      exists k,
        forallb is_return (take k outcomes) = true /\
        outcomes !! k = Some (Raise e) /\
        processed_data s =
          replicate (absent file_list) None ++ returned_values (take k outcomes)
  | Returned r =>
      forallb is_finished (futures s) = true /\
      ((r = Return (rollup_data file_list (processed_data s)) /\
        forallb is_return outcomes = true /\
        processed_data s =
          replicate (absent file_list) None ++ returned_values outcomes) \/
       (exists e k,
          r = Raise e /\
          forallb is_return (take k outcomes) = true /\
          outcomes !! k = Some (Raise e) /\
          processed_data s =
            replicate (absent file_list) None ++ returned_values (take k outcomes)))
  end.

(** The invariant of a call whose executor could be built. *)

Record invariant (s : state) : Prop := {
  inv_futures :
    Forall2 (future_ok (trace s)) (admitted (take (dispatched s) file_list))
      (futures s);
  inv_trace :
    forall i, i ∉ map fst (futures s) -> events_of i (trace s) = [];
  inv_main : main_ok s
}.

(** A bound on the moves a state still allows. *)

Definition fuel (f : nat * future) : nat :=
  match snd f with
  | Queued j => length (todo j) + 2
  | Running j => length (todo j) + 1
  | Finished _ => 0
  end.

Fixpoint dispatch_cost (i : nat) (files : list BaseFile) : nat :=
  match files with
  | [] => 0
  | file :: files' =>
      match path file with
      | Some p => length (fst (behaviour (i, p))) + 4
      | None => 1
      end + dispatch_cost (S i) files'
  end.

Definition measure (s : state) : nat :=
  list_sum (map fuel (futures s)) +
  match pc s with
  | Dispatching i =>
      dispatch_cost i (drop i file_list) + length (futures s) + 3
  | Collecting k => (length (futures s) - k) + 2
  | Leaving _ => 1
  | Returned _ => 0
  end.

End Batch.

(** ** Vocabulary for statements about traces *)

(** What the events of a pipeline end with once its polls are over:
    nothing more; the wait before a poll that could not name its task;
    the log line of the exhausted budget; or the result fetch, alone or
    followed by the log line of a skipped document. *)

Definition is_closing (evs : list event) : bool :=
  match evs with
  | [] => true
  | [Sleep 2] => true
  | [Log (TooManyHttpFailures _)] => true
  | [Request (GET_result _)] => true
  | [Request (GET_result _); Log NoJsonDocument] => true
  | [Request (GET_result _); Log (ValidationFailed _)] => true
  | _ => false
  end.

Definition is_submission (ev : event) : bool :=
  match ev with
  | Request (POST_convert_source_async _) => true
  | _ => false
  end.

(** The events of the calling thread in a trace. *)

Definition caller_events (tr : list (origin * event)) : list event :=
  omap (fun oe => match fst oe with
                  | caller => Some (snd oe)
                  | pipeline _ => None
                  end) tr.

Section BatchLog.

Context `{FileComponent}.

(** What the calling thread has logged at its control point: the line
    of the [except] clause once it has met an exception of the listed
    classes, nothing otherwise. *)

Definition expected_log (c : main_pc) : list event :=
  match c with
  | Leaving (Some e) | Returned (Raise e) =>
      if caught e then [Log ErrorOccurred] else []
  | _ => []
  end.

(** The number of callables the workers are executing. *)

Definition running (s : state) : nat :=
  length (List.filter is_running (futures s)).

End BatchLog.

(** ** A test double

    Concrete collaborators and inputs on which the statements below are
    exercised: paths are strings, every file reads as empty, any JSON
    object validates as a document, and [rollup_data] hands the files
    back. *)

Module Demo.

#[export] Instance documents : Documents := {|
  Path := string;
  path_str := fun p => p;
  path_name := fun p => p;
  read_bytes := fun _ => Some [];
  b64encode := fun _ => "";
  DoclingDocument := pyval;
  model_validate := fun v =>
    match v with
    | PDict _ => inr v
    | _ => inl "Input should be an object"
    end
|}.

#[export] Instance files : FileComponent := {|
  BaseFile := option string;
  path := fun file => file;
  rollup_data := fun file_list _ => file_list
|}.

Definition self : Component := {|
  api_url := "http://localhost:5001";
  max_concurrency := 2;
  docling_serve_opts := []
|}.

Definition task (task_status : string) : pyval :=
  PDict [("task_id", PStr "t1"); ("task_status", PStr task_status)].

Definition ok (body : pyval) : response := Response 200 (Some body).

Definition bad_gateway : response := Response 502 None.

Definition unavailable : response := Response 503 None.

Definition converted : pyval := PDict [("schema_name", PStr "DoclingDocument")].

Definition result_body : pyval :=
  PDict [("document", PDict [("json_content", converted)])].



Definition data : Data := mkData converted "a.pdf".

(** A job that fails on the server, whose result is served all the same. *)

Definition failed_job : list reply :=
  [Ok (ok (task "pending")); Ok (ok (task "failure")); Ok (ok result_body)].

(** A job already done when the submission is answered. *)

Definition instant_job : list reply :=
  [Ok (ok (task "success")); Ok (ok result_body)].

(** Poll responses where every other one is a 502: six of them in all,
    never two in a row, then "success". *)

Definition flaky_polls : list response :=
  [bad_gateway; ok (task "pending");
   bad_gateway; ok (task "running");
   bad_gateway; ok (task "pending");
   bad_gateway; ok (task "running");
   bad_gateway; ok (task "pending");
   bad_gateway; ok (task "success")].

(** Five 502s among the polls, then "success". *)

Definition bumpy_polls : list response :=
  [bad_gateway; ok (task "pending"); bad_gateway; bad_gateway;
   ok (task "running"); bad_gateway; bad_gateway].

(** Five 502s in a row; one more exhausts the budget. *)

Definition dead_proxy : list response :=
  [bad_gateway; bad_gateway; bad_gateway; bad_gateway; bad_gateway].

(** A service that answers the pipeline of input [i] with [jobs[i]]. *)

Definition serve (jobs : list (list reply)) (i : nat) : list reply :=
  default [] (jobs !! i).

(** A job converted after one poll. *)

Definition slow_job : list reply :=
  [Ok (ok (task "pending")); Ok (ok (task "success")); Ok (ok result_body)].

(** An input with a path followed by one without. *)

Definition mixed_batch : list BaseFile := [Some "a.pdf"; None].

(** Three inputs; the submission of the second is refused with a 503. *)

Definition three_files : list BaseFile :=
  [Some "a.pdf"; Some "b.pdf"; Some "c.pdf"].

Definition refusing : nat -> list reply :=
  serve [instant_job; [Ok unavailable]; slow_job].

(** Two inputs; the first job succeeds without a payload. *)



(** One input; its job succeeds with a body that has no document. *)

Definition one_file : list BaseFile := [Some "a.pdf"].


(** A schedule that runs the first loop over [files] inputs to its end,
    then each of [n] futures in turn for [m] moves, then the calling
    thread. *)

Definition in_turn (files n m : nat) : list actor :=
  replicate (S files) Main
  ++ flat_map (fun k => replicate m (Worker k)) (seq 0 n)
  ++ replicate (n + 2) Main.

(** A schedule of [three_files] in which the calling thread meets the
    exception of the second pipeline while the third is still running,
    and has to wait for it. *)

Definition error_first : list actor :=
  replicate 4 Main
  ++ replicate 4 (Worker 0) ++ replicate 3 (Worker 1) ++ replicate 2 (Worker 2)
  ++ replicate 4 Main.

Definition error_then_drain : list actor :=
  error_first ++ replicate 4 (Worker 2) ++ [Main].

(** A result whose payload the validator rejects. *)

Definition rejected_body : pyval :=
  PDict [("document", PDict [("json_content", PStr "not a document")])].

(** A component with options of its own, and one whose executor cannot
    be built. *)

Definition custom : Component := {|
  api_url := "http://localhost:5001";
  max_concurrency := 2;
  docling_serve_opts := [("to_formats", PList [PStr "md"]); ("do_ocr", PBool false)]
|}.


(** A service that answers the submission with a JSON array, and one
    whose job is still running when its replies stop. *)

Definition garbled : nat -> list reply := serve [[Ok (ok (PList []))]].

Definition stuck : nat -> list reply :=
  serve [[Ok (ok (task "pending")); Ok (ok (task "running"))]].

Definition no_paths : list BaseFile := [None; None].

End Demo.

(** * Properties of one pipeline *)

Section PipelineFacts.

Context `{Documents}.

#[local] Arguments poll_loop : simpl never.
#[local] Arguments fetch_result : simpl never.

Lemma poll_loop_unfold client task http_failures :
  poll_loop client task http_failures =
  match subscript task "task_status" with
  | inl e => ([], LoopRaise e)
  | inr task_status =>
      if is_terminal task_status then ([], LoopExit task client)
      else
        emit (Sleep 2)
          match subscript task "task_id" with
          | inl e => ([], LoopRaise e)
          | inr task_id =>
              emit (Request (GET_status_poll task_id))
                match client with
                | [] => ([], LoopBlocked)
                | Failed :: _ => ([], LoopRaise RequestError)
                | Ok response :: client' =>
                    if status_code response >? retry_status_code then
                      if http_failures + 1 >? MAX_500_RETRIES then
                        ([Log (TooManyHttpFailures (status_code response))],
                         LoopReturnNone)
                      else poll_loop client' task (http_failures + 1)
                    else
                      match json response with
                      | None => ([], LoopRaise ValueError)
                      | Some task' => poll_loop client' task' http_failures
                      end
                end
          end
  end.
Proof. destruct client; reflexivity. Qed.

Lemma is_pending_inv task :
  is_pending task = true ->
  exists task_status task_id,
    subscript task "task_status" = inr task_status /\
    is_terminal task_status = false /\
    subscript task "task_id" = inr task_id.
Proof.
  unfold is_pending. intros Hp.
  destruct (subscript task "task_status") as [|task_status]; [done|].
  destruct (subscript task "task_id") as [|task_id]; [done|].
  exists task_status, task_id. by destruct (is_terminal task_status).
Qed.

(** The loop is over as soon as the task carries a terminal status: no
    wait, no request. *)

Lemma poll_loop_terminal client task task_status http_failures :
  subscript task "task_status" = inr task_status ->
  is_terminal task_status = true ->
  poll_loop client task http_failures = ([], LoopExit task client).
Proof. intros Hs Ht. rewrite poll_loop_unfold, Hs, Ht. done. Qed.

(** A response above the threshold, budget not yet exhausted: the loop
    goes round with the same task and one more failure on the count. *)

Lemma poll_loop_retry r client task task_id http_failures :
  is_pending task = true ->
  subscript task "task_id" = inr task_id ->
  is_high r = true ->
  http_failures + 1 <= MAX_500_RETRIES ->
  poll_loop (Ok r :: client) task http_failures =
  (one_poll task_id ++ fst (poll_loop client task (http_failures + 1)),
   snd (poll_loop client task (http_failures + 1))).
Proof.
  intros Hp Hid Hh Hn.
  destruct (is_pending_inv _ Hp) as (st & tid & Hs & Ht & Hid').
  rewrite poll_loop_unfold, Hs, Ht, Hid.
  unfold is_high in Hh. rewrite Hh.
  destruct (Z.gtb_spec (http_failures + 1) MAX_500_RETRIES); [lia|].
  done.
Qed.

(** A response above the threshold with the budget exhausted. *)

Lemma poll_loop_give_up r client task task_id http_failures :
  is_pending task = true ->
  subscript task "task_id" = inr task_id ->
  is_high r = true ->
  MAX_500_RETRIES < http_failures + 1 ->
  poll_loop (Ok r :: client) task http_failures =
  (one_poll task_id ++ [Log (TooManyHttpFailures (status_code r))],
   LoopReturnNone).
Proof.
  intros Hp Hid Hh Hn.
  destruct (is_pending_inv _ Hp) as (st & tid & Hs & Ht & Hid').
  rewrite poll_loop_unfold, Hs, Ht, Hid.
  unfold is_high in Hh. rewrite Hh.
  destruct (Z.gtb_spec (http_failures + 1) MAX_500_RETRIES); [|lia].
  done.
Qed.

(** A response at or below the threshold: its body becomes the task. *)

Lemma poll_loop_refresh r client task task_id task' http_failures :
  is_pending task = true ->
  subscript task "task_id" = inr task_id ->
  is_high r = false ->
  json r = Some task' ->
  poll_loop (Ok r :: client) task http_failures =
  (one_poll task_id ++ fst (poll_loop client task' http_failures),
   snd (poll_loop client task' http_failures)).
Proof.
  intros Hp Hid Hh Hj.
  destruct (is_pending_inv _ Hp) as (st & tid & Hs & Ht & Hid').
  rewrite poll_loop_unfold, Hs, Ht, Hid.
  unfold is_high in Hh. rewrite Hh, Hj. done.
Qed.

(** A run of tolerated responses: the loop polls once per response and
    is then where it would be with some pending task and the failures
    of the run added to the count. *)

Lemma poll_loop_prefix rs : forall task http_failures rest,
  is_pending task = true ->
  forallb keeps_polling rs = true ->
  http_failures + Z.of_nat (length (List.filter is_high rs)) <= MAX_500_RETRIES ->
  exists task' evs,
    is_pending task' = true /\
    forallb is_poll evs = true /\
    length evs = (2 * length rs)%nat /\
    poll_loop (map Ok rs ++ rest) task http_failures =
    (evs ++ fst (poll_loop rest task'
                   (http_failures + Z.of_nat (length (List.filter is_high rs)))),
     snd (poll_loop rest task'
            (http_failures + Z.of_nat (length (List.filter is_high rs))))).
Proof.
  induction rs as [|r rs IH]; intros task n rest Hp Hk Hn; simpl in *.
  - exists task, []. rewrite Z.add_0_r. repeat split; try done.
    by destruct (poll_loop rest task n).
  - apply andb_prop in Hk as [Hr Hk].
    destruct (is_pending_inv _ Hp) as (st & tid & Hs & Ht & Hid).
    destruct (is_high r) eqn:Hh; simpl in *.
    + destruct (IH task (n + 1) rest Hp Hk) as (task' & evs & Hp' & He & Hl & Heq);
        [lia|].
      exists task', (one_poll tid ++ evs). repeat split; try done.
      * simpl. lia.
      * rewrite (poll_loop_retry _ _ _ tid); [|done..|lia].
        rewrite Heq. simpl.
        by replace (n + Z.of_nat (S (length (List.filter is_high rs))))
          with (n + 1 + Z.of_nat (length (List.filter is_high rs))) by lia.
    + unfold keeps_polling in Hr. rewrite Hh in Hr. simpl in Hr.
      destruct (json r) as [t|] eqn:Hj; [|done].
      destruct (IH t n rest Hr Hk Hn) as (task' & evs & Hp' & He & Hl & Heq).
      exists task', (one_poll tid ++ evs). repeat split; try done.
      * simpl. lia.
      * rewrite (poll_loop_refresh _ _ _ tid t); [|done..].
        rewrite Heq. done.
Qed.

(** Responses above the threshold only: the task is the one the loop
    had before them. *)

Lemma poll_loop_high_run rs : forall task task_id http_failures rest,
  is_pending task = true ->
  subscript task "task_id" = inr task_id ->
  forallb is_high rs = true ->
  http_failures + Z.of_nat (length rs) <= MAX_500_RETRIES ->
  poll_loop (map Ok rs ++ rest) task http_failures =
  (flat_map (fun _ => one_poll task_id) rs
     ++ fst (poll_loop rest task (http_failures + Z.of_nat (length rs))),
   snd (poll_loop rest task (http_failures + Z.of_nat (length rs)))).
Proof.
  induction rs as [|r rs IH]; intros task tid n rest Hp Hid Hh Hn; simpl in *.
  - rewrite Z.add_0_r. by destruct (poll_loop rest task n).
  - apply andb_prop in Hh as [Hr Hh].
    rewrite (poll_loop_retry _ _ _ tid); [|done..|lia].
    rewrite (IH task tid (n + 1) rest); [|done..|lia].
    simpl.
    by replace (n + Z.of_nat (S (length rs)))
      with (n + 1 + Z.of_nat (length rs)) by lia.
Qed.

Lemma fetch_result_events client file_path task :
  Forall (fun ev => is_poll ev = false)
    (fst (fetch_result client file_path task)).
Proof.
  unfold fetch_result, emit.
  repeat (case_match; simpl; try by repeat constructor).
Qed.

(** The task's status plays no part after the loop: two tasks with the
    same [task_id] are fetched and validated alike. *)

Lemma fetch_result_ignores_status client file_path task task' task_id :
  subscript task "task_id" = inr task_id ->
  subscript task' "task_id" = inr task_id ->
  fetch_result client file_path task = fetch_result client file_path task'.
Proof. intros H1 H2. unfold fetch_result. by rewrite H1, H2. Qed.

Lemma fetch_result_starts client file_path task task_id :
  subscript task "task_id" = inr task_id ->
  exists evs,
    fst (fetch_result client file_path task) = Request (GET_result task_id) :: evs.
Proof.
  intros Hid. unfold fetch_result. rewrite Hid. simpl. eauto.
Qed.

(** [_convert_document] once the submission went through. *)

Lemma convert_after_submission client file_path options bytes sub task :
  read_bytes file_path = Some bytes ->
  is_success sub = true ->
  json sub = Some task ->
  _convert_document (Ok sub :: client) file_path options =
  emit (submission file_path options bytes)
    match poll_loop client task 0 with
    | (evs, LoopReturnNone) => (evs, Return None)
    | (evs, LoopRaise e) => (evs, Raise e)
    | (evs, LoopBlocked) => (evs, Blocked)
    | (evs, LoopExit task' client') =>
        (evs ++ fst (fetch_result client' file_path task'),
         snd (fetch_result client' file_path task'))
    end.
Proof.
  intros Hr Hs Hj. unfold _convert_document, raise_for_status, submission.
  rewrite Hr, Hs, Hj.
  destruct (poll_loop client task 0) as [evs []]; try done.
  by destruct (fetch_result client0 file_path task0).
Qed.

(** A run of tolerated responses with more responses above the
    threshold than the budget has left: the loop gives up within it. *)

Lemma poll_loop_exhausts rs : forall task c rest,
  is_pending task = true ->
  forallb keeps_polling rs = true ->
  c <= MAX_500_RETRIES ->
  MAX_500_RETRIES < c + Z.of_nat (length (List.filter is_high rs)) ->
  exists evs code,
    poll_loop (map Ok rs ++ rest) task c =
      (evs ++ [Log (TooManyHttpFailures code)], LoopReturnNone) /\
    forallb is_poll evs = true /\
    (length evs <= 2 * length rs)%nat.
Proof.
  induction rs as [|r rs IH]; intros task c rest Hp Hk Hc Hn; simpl in *; [lia|].
  apply andb_prop in Hk as [Hr Hk].
  destruct (is_pending_inv _ Hp) as (st & tid & Hs & Ht & Hid).
  destruct (is_high r) eqn:Hh; simpl in *.
  - destruct (Z.le_gt_cases (c + 1) MAX_500_RETRIES) as [Hle|Hgt].
    + destruct (IH task (c + 1) rest Hp Hk Hle) as (evs & code & Heq & He & Hl);
        [lia|].
      exists (one_poll tid ++ evs), code.
      rewrite (poll_loop_retry _ _ _ tid) by done. rewrite Heq. simpl.
      repeat split; [done|lia].
    + exists (one_poll tid), (status_code r).
      rewrite (poll_loop_give_up _ _ _ tid) by (done || lia).
      repeat split. simpl. lia.
  - unfold keeps_polling in Hr. rewrite Hh in Hr. simpl in Hr.
    destruct (json r) as [t|] eqn:Hj; [|done].
    destruct (IH t c rest Hr Hk Hc Hn) as (evs & code & Heq & He & Hl).
    exists (one_poll tid ++ evs), code.
    rewrite (poll_loop_refresh _ _ _ tid t) by done. rewrite Heq. simpl.
    repeat split; [done|lia].
Qed.

Lemma filter_all_high rs :
  forallb is_high rs = true -> List.filter is_high rs = rs.
Proof.
  induction rs as [|r rs IH]; simpl; [done|].
  intros Hall. apply andb_prop in Hall as [-> Hall]. by rewrite IH.
Qed.

Lemma high_keeps_polling rs :
  forallb is_high rs = true -> forallb keeps_polling rs = true.
Proof.
  induction rs as [|r rs IH]; simpl; [done|].
  intros Hall. apply andb_prop in Hall as [Hr Hall].
  unfold keeps_polling at 1. by rewrite Hr, IH.
Qed.

(** C4.  A job whose poll responses come back above the threshold
    [MAX_500_RETRIES + 1] times in a row: the pipeline returns [None];
    it has polled once per such response, always for the same task, and
    its last act is the log line: nothing is requested after the budget
    is exceeded, whatever the server still had to say ([rest]).  The
    task is untouched by those responses: after any [k] of them within
    the budget the loop stands where it would with the same task and [k]
    failures counted.  The run may also come later, after responses the
    loop tolerates: the pipeline returns [None] all the same, having
    done nothing but wait and poll before the log line. *)

Theorem retry_budget_exhausted
  file_path options bytes sub task task_id rs r_last rest :
  read_bytes file_path = Some bytes ->
  is_success sub = true ->
  json sub = Some task ->
  is_pending task = true ->
  subscript task "task_id" = inr task_id ->
  Z.of_nat (length (rs ++ [r_last])) = MAX_500_RETRIES + 1 ->
  forallb is_high (rs ++ [r_last]) = true ->
  _convert_document (Ok sub :: map Ok (rs ++ [r_last]) ++ rest) file_path options =
    (submission file_path options bytes
       :: flat_map (fun _ => one_poll task_id) (rs ++ [r_last])
       ++ [Log (TooManyHttpFailures (status_code r_last))],
     Return None)
  /\ (forall k rest',
       Z.of_nat k <= MAX_500_RETRIES ->
       poll_loop (map Ok (take k (rs ++ [r_last])) ++ rest') task 0 =
       (flat_map (fun _ => one_poll task_id) (take k (rs ++ [r_last]))
          ++ fst (poll_loop rest' task (Z.of_nat k)),
        snd (poll_loop rest' task (Z.of_nat k))))
  /\ forall pre,
       forallb keeps_polling pre = true ->
       exists evs code,
         _convert_document (Ok sub :: map Ok (pre ++ rs ++ [r_last]) ++ rest)
           file_path options =
           (submission file_path options bytes
              :: evs ++ [Log (TooManyHttpFailures code)],
            Return None) /\
         forallb is_poll evs = true.
Proof.
  intros Hread Hok Hjson Hp Hid Hlen Hhigh.
  pose proof Hhigh as Hall. pose proof Hlen as Hlen'.
  rewrite length_app in Hlen. simpl in Hlen.
  assert (Hrs : Z.of_nat (length rs) = MAX_500_RETRIES) by lia.
  rewrite forallb_app in Hhigh. apply andb_prop in Hhigh as [Hh Hl].
  simpl in Hl. rewrite andb_true_r in Hl.
  split; [|split].
  - rewrite (convert_after_submission _ _ _ bytes sub task) by done.
    rewrite map_app, <- app_assoc.
    rewrite (poll_loop_high_run rs task task_id 0) by (done || lia).
    simpl. rewrite (poll_loop_give_up _ _ _ task_id) by (done || lia).
    unfold emit. simpl. rewrite flat_map_app. simpl.
    by rewrite <- !app_assoc.
  - intros k rest' Hk.
    assert (Hlk : length (take k (rs ++ [r_last])) = k).
    { rewrite length_take, length_app. simpl. unfold MAX_500_RETRIES in *. lia. }
    rewrite (poll_loop_high_run _ task task_id 0); rewrite ?Hlk; try done.
    apply forallb_forall. intros r Hr.
    rewrite forallb_forall in Hall. apply Hall.
    rewrite <- (take_drop k (rs ++ [r_last])). apply in_or_app. by left.
  - intros pre Hpre.
    destruct (poll_loop_exhausts (pre ++ rs ++ [r_last]) task 0 rest Hp)
      as (evs & code & Heq & He & _).
    + rewrite forallb_app, Hpre. by apply high_keeps_polling.
    + unfold MAX_500_RETRIES. lia.
    + rewrite List.filter_app, length_app, (filter_all_high _ Hall). lia.
    + exists evs, code. split; [|done].
      rewrite (convert_after_submission _ _ _ bytes sub task) by done.
      by rewrite Heq.
Qed.

(** C3, as the code has it.  The budget is spent by every response above
    the threshold, consecutive or not.  When the responses before a
    terminal one hold at most [MAX_500_RETRIES] such responses in all,
    the others being well-formed and not terminal, the loop ends by
    falling out of the [while] with the terminal task: it has polled
    once per response and logged nothing. *)

Theorem poll_loop_reaches_terminal rs task r_end task_end task_status rest :
  is_pending task = true ->
  forallb keeps_polling rs = true ->
  Z.of_nat (length (List.filter is_high rs)) <= MAX_500_RETRIES ->
  is_high r_end = false ->
  json r_end = Some task_end ->
  subscript task_end "task_status" = inr task_status ->
  is_terminal task_status = true ->
  exists evs,
    poll_loop (map Ok rs ++ Ok r_end :: rest) task 0 = (evs, LoopExit task_end rest) /\
    forallb is_poll evs = true /\
    length evs = (2 * (length rs + 1))%nat.
Proof.
  intros Hp Hk Hn Hh Hj Hs Ht.
  destruct (poll_loop_prefix rs task 0 (Ok r_end :: rest) Hp Hk)
    as (task' & evs & Hp' & He & Hl & Heq); [lia|].
  destruct (is_pending_inv _ Hp') as (st' & tid' & _ & _ & Hid').
  rewrite (poll_loop_refresh _ _ _ tid' task_end) in Heq by done.
  rewrite (poll_loop_terminal rest task_end task_status) in Heq by done.
  simpl in Heq.
  exists (evs ++ one_poll tid'). split; [done|]. split.
  - rewrite forallb_app, He. done.
  - rewrite length_app, Hl. simpl. lia.
Qed.

(** C8, as the code has it.  The loop tests the task's status before it
    waits.  A submission response that already carries a terminal status
    leads straight to the result fetch: no wait, no poll request.  One
    that carries any other status leads to a first wait and poll. *)

Theorem polling_is_guarded file_path options bytes sub task client :
  read_bytes file_path = Some bytes ->
  is_success sub = true ->
  json sub = Some task ->
  (forall task_status,
     subscript task "task_status" = inr task_status ->
     is_terminal task_status = true ->
     _convert_document (Ok sub :: client) file_path options =
       (submission file_path options bytes :: fst (fetch_result client file_path task),
        snd (fetch_result client file_path task)) /\
     Forall (fun ev => is_poll ev = false)
       (fst (_convert_document (Ok sub :: client) file_path options))) /\
  (forall task_id,
     is_pending task = true ->
     subscript task "task_id" = inr task_id ->
     exists evs,
       fst (_convert_document (Ok sub :: client) file_path options) =
       submission file_path options bytes :: one_poll task_id ++ evs).
Proof.
  intros Hread Hok Hjson. split.
  - intros st Hs Ht.
    rewrite (convert_after_submission _ _ _ bytes sub task) by done.
    rewrite (poll_loop_terminal _ _ st) by done. simpl. split; [done|].
    constructor; [done|]. apply fetch_result_events.
  - intros tid Hp Hid.
    destruct (is_pending_inv _ Hp) as (st & tid' & Hs & Ht & Hid').
    rewrite (convert_after_submission _ _ _ bytes sub task) by done.
    rewrite poll_loop_unfold, Hs, Ht, Hid. unfold emit. simpl.
    repeat case_match; simpl; eauto.
Qed.

(** C2, as the code has it.  The loop falls out of the [while] on
    "failure" as on "success", and what follows does not look at the
    status: the result of the task is requested, and the pipeline ends
    as it would for any task with the same [task_id], a successful one
    included. *)

Theorem result_fetched_after_failure
  file_path options bytes sub task client evs task_end client_end task_id :
  read_bytes file_path = Some bytes ->
  is_success sub = true ->
  json sub = Some task ->
  poll_loop client task 0 = (evs, LoopExit task_end client_end) ->
  subscript task_end "task_status" = inr (PStr "failure") ->
  subscript task_end "task_id" = inr task_id ->
  exists evs' r,
    _convert_document (Ok sub :: client) file_path options =
      (submission file_path options bytes :: evs ++ Request (GET_result task_id) :: evs', r) /\
    forall task',
      subscript task' "task_id" = inr task_id ->
      fetch_result client_end file_path task' = (Request (GET_result task_id) :: evs', r).
Proof.
  intros Hread Hok Hjson Hloop Hs Hid.
  destruct (fetch_result_starts client_end file_path task_end task_id Hid)
    as [evs' Hevs].
  exists evs', (snd (fetch_result client_end file_path task_end)). split.
  - rewrite (convert_after_submission _ _ _ bytes sub task) by done.
    rewrite Hloop. unfold emit. simpl. by rewrite Hevs.
  - intros task' Hid'.
    rewrite (fetch_result_ignores_status _ _ task' task_end task_id) by done.
    rewrite <- Hevs. by destruct (fetch_result client_end file_path task_end).
Qed.

(** ** Results on the fetched body *)


Lemma fetch_result_missing_document client file_path task task_id r d :
  subscript task "task_id" = inr task_id ->
  is_success r = true ->
  json r = Some (PDict d) ->
  dict_get "document" d = None ->
  fetch_result (Ok r :: client) file_path task =
  ([Request (GET_result task_id)], Raise (KeyError "document")).
Proof.
  intros Hid Hok Hj Hd.
  unfold fetch_result, raise_for_status. rewrite Hid, Hok, Hj. simpl.
  by rewrite Hd.
Qed.

(** A pipeline that ends with [None] after its result fetch found a
    ["document"] in the body; when it ends so on the missing payload of
    a document object, ["json_content"] is absent from it or null. *)


(** ** Faults end the pipeline with their exception *)

Lemma poll_loop_exit_extend polls : forall task n evs task_end left rest,
  poll_loop polls task n = (evs, LoopExit task_end left) ->
  poll_loop (polls ++ rest) task n = (evs, LoopExit task_end (left ++ rest)).
Proof.
  induction polls as [|reply polls IH]; intros task n evs task_end left rest Hl;
    rewrite poll_loop_unfold in Hl; rewrite poll_loop_unfold.
  - repeat case_match; unfold emit in *; simpl in *; by simplify_eq.
  - simpl. destruct (subscript task "task_status") as [|st]; [done|].
    destruct (is_terminal st); [by simplify_eq|].
    destruct (subscript task "task_id") as [|tid]; [done|].
    destruct reply as [r|]; [|done].
    destruct (status_code r >? retry_status_code).
    + destruct (n + 1 >? MAX_500_RETRIES); [done|].
      destruct (poll_loop polls task (n + 1)) as [evs0 end0] eqn:Hrec.
      unfold emit in *. simpl in *. simplify_eq.
      by rewrite (IH _ _ _ _ _ rest Hrec).
    + destruct (json r) as [t|]; [|done].
      destruct (poll_loop polls t n) as [evs0 end0] eqn:Hrec.
      unfold emit in *. simpl in *. simplify_eq.
      by rewrite (IH _ _ _ _ _ rest Hrec).
Qed.

(** A loop left waiting for a reply stands, when replies follow, where
    it would with a pending task it has just asked about. *)

Lemma poll_loop_blocked_extend polls : forall task n evs,
  poll_loop polls task n = (evs, LoopBlocked) ->
  exists task' n' task_id evs',
    is_pending task' = true /\
    subscript task' "task_id" = inr task_id /\
    forall reply rest,
      poll_loop (polls ++ reply :: rest) task n =
      (evs' ++ fst (poll_loop (reply :: rest) task' n'),
       snd (poll_loop (reply :: rest) task' n')).
Proof.
  induction polls as [|reply polls IH]; intros task n evs Hl;
    rewrite poll_loop_unfold in Hl.
  - destruct (subscript task "task_status") as [|st] eqn:Hs; [done|].
    destruct (is_terminal st) eqn:Ht; [done|].
    destruct (subscript task "task_id") as [|tid] eqn:Hid; [done|].
    exists task, n, tid, []. split; [|split; [done|]].
    + unfold is_pending. by rewrite Hs, Hid, Ht.
    + intros reply rest. simpl. by destruct (poll_loop _ _ _).
  - destruct (subscript task "task_status") as [|st] eqn:Hs; [done|].
    destruct (is_terminal st) eqn:Ht; [done|].
    destruct (subscript task "task_id") as [|tid] eqn:Hid; [done|].
    destruct reply as [r|]; [|done].
    destruct (status_code r >? retry_status_code) eqn:Hh.
    + destruct (n + 1 >? MAX_500_RETRIES) eqn:Hn; [done|].
      destruct (poll_loop polls task (n + 1)) as [evs0 end0] eqn:Hrec.
      unfold emit in Hl. simpl in Hl. simplify_eq.
      destruct (IH _ _ _ Hrec) as (task' & n' & tid' & evs' & Hp & Hid' & Hext).
      exists task', n', tid', (one_poll tid ++ evs'). split; [done|]. split; [done|].
      intros reply rest. simpl.
      rewrite poll_loop_unfold, Hs, Ht, Hid, Hh, Hn.
      rewrite Hext. done.
    + destruct (json r) as [t|] eqn:Hj; [|done].
      destruct (poll_loop polls t n) as [evs0 end0] eqn:Hrec.
      unfold emit in Hl. simpl in Hl. simplify_eq.
      destruct (IH _ _ _ Hrec) as (task' & n' & tid' & evs' & Hp & Hid' & Hext).
      exists task', n', tid', (one_poll tid ++ evs'). split; [done|]. split; [done|].
      intros reply rest. simpl.
      rewrite poll_loop_unfold, Hs, Ht, Hid, Hh, Hj.
      rewrite Hext. done.
Qed.

Lemma convert_outcome client file_path options bytes sub task :
  read_bytes file_path = Some bytes ->
  is_success sub = true ->
  json sub = Some task ->
  snd (_convert_document (Ok sub :: client) file_path options) =
  conclude file_path (poll_loop client task 0).
Proof.
  intros Hr Hs Hj.
  rewrite (convert_after_submission _ _ _ bytes sub task) by done.
  unfold conclude. by destruct (poll_loop client task 0) as [evs []].
Qed.

Lemma conclude_app file_path evs (l : list event * loop_end) :
  conclude file_path (evs ++ fst l, snd l) = conclude file_path l.
Proof. by destruct l as [evs' []]. Qed.

Lemma conclude_no_id file_path client d task_status n :
  dict_get "task_status" d = Some task_status ->
  dict_get "task_id" d = None ->
  conclude file_path (poll_loop client (PDict d) n) = Raise (KeyError "task_id").
Proof.
  intros Hs Hid. rewrite poll_loop_unfold. simpl. rewrite Hs, Hid.
  destruct (is_terminal task_status); unfold conclude; simpl; [|done].
  unfold fetch_result. simpl. by rewrite Hid.
Qed.

Lemma fault_raises client e file_path options bytes :
  fault client e ->
  read_bytes file_path = Some bytes ->
  snd (_convert_document client file_path options) = Raise e.
Proof.
  intros Hf Hread.
  destruct Hf as
    [ client
    | sub client Hno
    | sub client Hok Hj
    | sub d client Hok Hj Hs
    | sub d task_status client Hok Hj Hs Hid
    | sub task polls evs client Hok Hj Hl
    | sub task polls evs r client Hok Hj Hl Hh Hjr
    | sub task polls evs r d client Hok Hj Hl Hh Hjr Hs
    | sub task polls evs r d task_status client Hok Hj Hl Hh Hjr Hs Hid
    | sub task polls evs task_end task_id client Hok Hj Hl Hid
    | sub task polls evs task_end task_id r client Hok Hj Hl Hid Hno
    | sub task polls evs task_end task_id r client Hok Hj Hl Hid Hokr Hjr
    | sub task polls evs task_end task_id r d client Hok Hj Hl Hid Hokr Hjr Hd ].
  - unfold _convert_document. by rewrite Hread.
  - unfold _convert_document, raise_for_status. by rewrite Hread, Hno.
  - unfold _convert_document, raise_for_status. by rewrite Hread, Hok, Hj.
  - rewrite (convert_outcome _ _ _ bytes sub (PDict d)) by done.
    rewrite poll_loop_unfold. simpl. by rewrite Hs.
  - rewrite (convert_outcome _ _ _ bytes sub (PDict d)) by done.
    by apply (conclude_no_id _ _ _ task_status).
  - rewrite (convert_outcome _ _ _ bytes sub task) by done.
    destruct (poll_loop_blocked_extend _ _ _ _ Hl)
      as (task' & n' & tid' & evs' & Hp & Hid' & ->).
    rewrite conclude_app.
    destruct (is_pending_inv _ Hp) as (st & tid & Hs & Ht & Hid).
    by rewrite poll_loop_unfold, Hs, Ht, Hid.
  - rewrite (convert_outcome _ _ _ bytes sub task) by done.
    destruct (poll_loop_blocked_extend _ _ _ _ Hl)
      as (task' & n' & tid' & evs' & Hp & Hid' & ->).
    rewrite conclude_app.
    destruct (is_pending_inv _ Hp) as (st & tid & Hs & Ht & Hid).
    unfold is_high in Hh.
    by rewrite poll_loop_unfold, Hs, Ht, Hid, Hh, Hjr.
  - rewrite (convert_outcome _ _ _ bytes sub task) by done.
    destruct (poll_loop_blocked_extend _ _ _ _ Hl)
      as (task' & n' & tid' & evs' & Hp & Hid' & ->).
    rewrite conclude_app.
    rewrite (poll_loop_refresh _ _ _ tid' (PDict d)) by done.
    rewrite conclude_app.
    rewrite poll_loop_unfold. simpl. by rewrite Hs.
  - rewrite (convert_outcome _ _ _ bytes sub task) by done.
    destruct (poll_loop_blocked_extend _ _ _ _ Hl)
      as (task' & n' & tid' & evs' & Hp & Hid' & ->).
    rewrite conclude_app.
    rewrite (poll_loop_refresh _ _ _ tid' (PDict d)) by done.
    rewrite conclude_app.
    by apply (conclude_no_id _ _ _ task_status).
  - rewrite (convert_outcome _ _ _ bytes sub task) by done.
    rewrite (poll_loop_exit_extend _ _ _ _ _ _ (Failed :: client) Hl).
    unfold conclude, fetch_result. simpl. by rewrite Hid.
  - rewrite (convert_outcome _ _ _ bytes sub task) by done.
    rewrite (poll_loop_exit_extend _ _ _ _ _ _ (Ok r :: client) Hl).
    unfold conclude, fetch_result, raise_for_status. simpl. by rewrite Hid, Hno.
  - rewrite (convert_outcome _ _ _ bytes sub task) by done.
    rewrite (poll_loop_exit_extend _ _ _ _ _ _ (Ok r :: client) Hl).
    unfold conclude, fetch_result, raise_for_status. simpl.
    by rewrite Hid, Hokr, Hjr.
  - rewrite (convert_outcome _ _ _ bytes sub task) by done.
    rewrite (poll_loop_exit_extend _ _ _ _ _ _ (Ok r :: client) Hl).
    unfold conclude. simpl.
    by rewrite (fetch_result_missing_document _ _ _ task_id r d).
Qed.

End PipelineFacts.

(** * Properties of the batch operation *)

Section BatchFacts.

Context `{FileComponent}.

Variable self : Component.
Variable server : nat -> list reply.
Variable file_list : list BaseFile.

Local Notation behaviour := (behaviour self server).
Local Notation outcomes := (outcomes self server file_list).
Local Notation future_ok := (future_ok self server).
Local Notation main_step := (main_step self server file_list).
Local Notation worker_step := (worker_step self).
Local Notation step := (step self server file_list).
Local Notation run := (run self server file_list).
Local Notation process_files := (process_files self server file_list).
Local Notation init := (init self).
Local Notation main_ok := (main_ok self server file_list).
Local Notation invariant := (invariant self server file_list).
Local Notation measure := (measure self server file_list).

(** ** Lists of admitted inputs *)

Lemma admitted_app (l1 l2 : list BaseFile) :
  admitted (l1 ++ l2) =
  admitted l1 ++
  omap (fun f => pair (fst f) <$> path (snd f))
    (imap (fun i => pair (length l1 + i)%nat) l2).
Proof. unfold admitted. by rewrite imap_app, omap_app. Qed.

Lemma admitted_take_S i file :
  file_list !! i = Some file ->
  admitted (take (S i) file_list) =
  admitted (take i file_list) ++
  match path file with
  | Some p => [(i, p)]
  | None => []
  end.
Proof.
  intros Hi. rewrite (take_S_r _ _ _ Hi), admitted_app. f_equal.
  assert (Hlen : length (take i file_list) = i).
  { apply lookup_lt_Some in Hi. rewrite length_take. lia. }
  simpl. rewrite Hlen, Nat.add_0_r. by destruct (path file).
Qed.

Lemma absent_take_S i file :
  file_list !! i = Some file ->
  absent (take (S i) file_list) =
  (absent (take i file_list) + if no_path file then 1 else 0)%nat.
Proof.
  intros Hi. unfold absent.
  rewrite (take_S_r _ _ _ Hi), List.filter_app, length_app. simpl.
  by destruct (no_path file).
Qed.

Lemma elem_of_admitted (files : list BaseFile) i p :
  (i, p) ∈ admitted files <->
  exists file, files !! i = Some file /\ path file = Some p.
Proof.
  unfold admitted. rewrite list_elem_of_omap. split.
  - intros ([j file] & Hin & Heq). simpl in Heq.
    apply elem_of_lookup_imap in Hin as (j' & file' & Hjf & Hl). simplify_eq.
    destruct (path file') as [q|] eqn:Hq; simplify_eq/=. eauto.
  - intros (file & Hl & Hp). exists (i, file). split.
    + apply elem_of_lookup_imap. eauto.
    + simpl. by rewrite Hp.
Qed.

Lemma admitted_take_lt i j p :
  (j, p) ∈ admitted (take i file_list) -> (j < i)%nat.
Proof.
  rewrite elem_of_admitted. intros (file & Hl & _).
  apply lookup_lt_Some in Hl. rewrite length_take in Hl. lia.
Qed.

Lemma admitted_take_incl i a :
  a ∈ admitted (take i file_list) -> a ∈ admitted file_list.
Proof.
  destruct a as [j p]. rewrite !elem_of_admitted. intros (file & Hl & Hp).
  exists file. split; [|done]. rewrite lookup_take_Some in Hl. tauto.
Qed.

Lemma admitted_NoDup i : NoDup (map fst (admitted (take i file_list))).
Proof.
  induction i as [|i IH]; [rewrite take_0; constructor|].
  destruct (file_list !! i) as [file|] eqn:Hi.
  - rewrite (admitted_take_S _ _ Hi). destruct (path file) as [p|].
    + rewrite map_app. apply NoDup_app. split; [done|]. split.
      * intros j Hj Hj'. simpl in Hj'. apply list_elem_of_singleton in Hj'.
        subst j. apply list_elem_of_fmap in Hj as ([j p'] & -> & Hin).
        apply admitted_take_lt in Hin. simpl in Hin. lia.
      * simpl. apply NoDup_singleton.
    + by rewrite app_nil_r.
  - apply lookup_ge_None in Hi. rewrite take_ge in * by lia. done.
Qed.

(** ** Events of one pipeline in a trace *)

Lemma events_of_app i (tr1 tr2 : list (origin * event)) :
  events_of i (tr1 ++ tr2) = events_of i tr1 ++ events_of i tr2.
Proof. apply omap_app. Qed.

Lemma events_of_caller i (tr : list (origin * event)) ev :
  events_of i (tr ++ [(caller, ev)]) = events_of i tr.
Proof. rewrite events_of_app. simpl. apply app_nil_r. Qed.

Lemma events_of_same i (tr : list (origin * event)) ev :
  events_of i (tr ++ [(pipeline i, ev)]) = events_of i tr ++ [ev].
Proof. rewrite events_of_app. unfold events_of at 2. simpl. by rewrite Nat.eqb_refl. Qed.

Lemma events_of_other i j (tr : list (origin * event)) ev :
  j <> i ->
  events_of i (tr ++ [(pipeline j, ev)]) = events_of i tr.
Proof.
  intros Hne. rewrite events_of_app. unfold events_of at 2. simpl.
  apply Nat.eqb_neq in Hne. rewrite Hne. apply app_nil_r.
Qed.

(** ** The invariant holds along every schedule *)

Ltac inv_split := split; unfold main_ok, dispatched; simpl.

Lemma future_ok_caller tr a f ev :
  future_ok tr a f -> future_ok (tr ++ [(caller, ev)]) a f.
Proof. unfold future_ok. by rewrite events_of_caller. Qed.

Lemma future_ok_other tr a f j ev :
  j <> fst a ->
  future_ok tr a f -> future_ok (tr ++ [(pipeline j, ev)]) a f.
Proof. intros Hj. unfold future_ok. by rewrite events_of_other. Qed.

Lemma futures_indices tr adm (futs : list (nat * future)) :
  Forall2 (future_ok tr) adm futs -> map fst futs = map fst adm.
Proof.
  induction 1 as [|a f adm futs [Hf _] _ IH]; [done|]. simpl. by rewrite Hf, IH.
Qed.

Lemma invariant_outcome s k i r :
  invariant s ->
  dispatched file_list s = length file_list ->
  futures s !! k = Some (i, Finished r) ->
  outcomes !! k = Some r /\ r <> Blocked.
Proof.
  intros [HF _ _] Hd Hk. rewrite Hd, firstn_all in HF.
  destruct (Forall2_lookup_r _ _ _ _ _ HF Hk) as (a & Ha & _ & Hr & Hnb & _).
  simpl in *. split; [|done].
  unfold outcomes. rewrite list_lookup_fmap, Ha. simpl. by rewrite Hr.
Qed.

Lemma init_invariant : 0 < max_concurrency self -> invariant init.
Proof.
  intros Hc. unfold init.
  destruct (Z.leb_spec (max_concurrency self) 0); [lia|].
  split; simpl; [constructor|done|].
  unfold main_ok. simpl. split; [lia|done].
Qed.

Lemma main_step_invariant s s' :
  invariant s -> main_step s = Some s' -> invariant s'.
Proof.
  intros Hinv Hstep. pose proof Hinv as [HF HT HM].
  unfold main_step in Hstep.
  unfold main_ok, dispatched in *.
  destruct s as [pc0 pd futs tr]. simpl in *.
  destruct pc0 as [i|k|pending|r]; [| | |done].
  - destruct HM as [Hi Hpd].
    destruct (file_list !! i) as [file|] eqn:Hfile.
    + pose proof (lookup_lt_Some _ _ _ Hfile) as Hlt.
      destruct (path file) as [p|] eqn:Hp; simplify_eq; inv_split.
      * rewrite (admitted_take_S _ _ Hfile), Hp.
        apply Forall2_app; [done|]. constructor; [|constructor].
        split; [done|]. simpl. unfold submit, behaviour. simpl.
        destruct (_convert_document (server i) p (docling_options self)).
        split; [done|]. apply HT.
        rewrite (futures_indices _ _ _ HF). intros Hin.
        apply list_elem_of_fmap in Hin as ([j q] & Hj & Hin). simpl in Hj. subst j.
        apply admitted_take_lt in Hin. lia.
      * intros j Hj. apply HT. intros Hin. apply Hj.
        rewrite map_app. apply elem_of_app. by left.
      * split; [lia|]. rewrite (absent_take_S _ _ Hfile).
        unfold no_path. rewrite Hp. by rewrite Nat.add_0_r.
      * rewrite (admitted_take_S _ _ Hfile), Hp. by rewrite app_nil_r.
      * done.
      * split; [lia|]. rewrite (absent_take_S _ _ Hfile).
        unfold no_path. rewrite Hp.
        rewrite Nat.add_1_r. by rewrite replicate_S_end.
    + apply lookup_ge_None in Hfile. simplify_eq. inv_split.
      * rewrite firstn_all. by rewrite take_ge in HF by lia.
      * done.
      * split; [lia|]. split; [done|].
        rewrite app_nil_r. by rewrite take_ge by lia.
  - destruct HM as (Hk & Hret & Hpd).
    assert (Hlen : length futs = length outcomes).
    { rewrite firstn_all in HF. apply Forall2_length in HF.
      unfold outcomes. rewrite length_map. lia. }
    destruct (futs !! k) as [[i f]|] eqn:Hfk.
    + destruct f as [j|j|[d|e|]]; try done.
      * destruct (invariant_outcome _ k i (Return d) Hinv eq_refl Hfk) as [Ho _].
        pose proof (lookup_lt_Some _ _ _ Hfk) as Hlt.
        simplify_eq. inv_split; [done..|].
        rewrite (take_S_r _ _ _ Ho). split; [lia|]. split.
        -- rewrite forallb_app, Hret. done.
        -- unfold returned_values. rewrite omap_app, app_assoc. done.
      * destruct (invariant_outcome _ k i (Raise e) Hinv eq_refl Hfk) as [Ho _].
        simplify_eq. inv_split.
        -- destruct (caught e); [|done].
           eapply Forall2_impl; [exact HF|]. intros a f. apply future_ok_caller.
        -- intros j Hj. destruct (caught e); [|by apply HT].
           rewrite events_of_caller. by apply HT.
        -- by exists k.
    + apply lookup_ge_None in Hfk. simplify_eq. inv_split; [done..|].
      rewrite take_ge in Hret by lia. by rewrite take_ge by lia.
  - destruct (forallb is_finished futs) eqn:Hfin; [|done].
    simplify_eq. inv_split; [done..|]. split; [done|].
    destruct pending as [e|].
    + right. destruct HM as (k & Hret & Ho & Hpd). by exists e, k.
    + left. by destruct HM.
Qed.

Lemma futures_update tr tr' adm (futs : list (nat * future)) k i f f' a :
  Forall2 (future_ok tr) adm futs ->
  NoDup (map fst adm) ->
  futs !! k = Some (i, f) ->
  adm !! k = Some a ->
  (forall a' g, fst a' <> fst a -> future_ok tr a' g -> future_ok tr' a' g) ->
  future_ok tr' a (i, f') ->
  Forall2 (future_ok tr') adm (<[k := (i, f')]> futs).
Proof.
  intros HF Hnd Hk Ha Hother Hnew.
  apply Forall2_same_length_lookup in HF as [Hlen HF].
  apply Forall2_same_length_lookup. split; [by rewrite length_insert|].
  intros k' a' g Ha' Hg.
  destruct (decide (k' = k)) as [->|Hne].
  - rewrite list_lookup_insert_eq in Hg by (by eapply lookup_lt_Some).
    by simplify_eq.
  - rewrite list_lookup_insert_ne in Hg by done.
    apply Hother; [|by eapply HF].
    intros Heq. apply Hne.
    eapply (NoDup_lookup _ _ _ _ Hnd); rewrite list_lookup_fmap.
    + by rewrite Ha'.
    + rewrite Ha. simpl. by rewrite Heq.
Qed.

Lemma futures_update_indices (futs : list (nat * future)) k i f f' :
  futs !! k = Some (i, f) ->
  map fst (<[k := (i, f')]> futs) = map fst futs.
Proof.
  intros Hk. rewrite list_fmap_insert. simpl.
  apply list_insert_id. rewrite list_lookup_fmap. by rewrite Hk.
Qed.

Lemma main_ok_update s k i f f' tr' :
  main_ok s ->
  futures s !! k = Some (i, f) ->
  is_finished (i, f) = false ->
  main_ok (mkState (pc s) (processed_data s) (<[k := (i, f')]> (futures s)) tr').
Proof.
  unfold main_ok. destruct s as [[j|j|pending|r] pd futs tr]; simpl;
    intros HM Hk Hf; rewrite ?length_insert; try done.
  destruct HM as [Hall _]. rewrite forallb_forall in Hall.
  rewrite Hall in Hf; [done|].
  apply list_elem_of_In. by eapply list_elem_of_lookup_2.
Qed.

Lemma worker_step_invariant k s s' :
  invariant s -> worker_step k s = Some s' -> invariant s'.
Proof.
  intros Hinv Hstep. pose proof Hinv as [HF HT HM].
  unfold worker_step in Hstep.
  destruct (futures s !! k) as [[i f]|] eqn:Hk; [|done].
  destruct (Forall2_lookup_r _ _ _ _ _ HF Hk) as (a & Ha & Hi & Hfa).
  simpl in Hi, Hfa. subst i.
  pose proof (admitted_NoDup (dispatched file_list s)) as Hnd.
  destruct f as [j|[evs r]|r]; [| |done].
  - destruct (_ && _); [|done]. simplify_eq.
    destruct Hfa as [-> Hev]. split; simpl.
    + eapply futures_update; try done. split; [done|]. simpl. by rewrite Hev.
    + by rewrite (futures_update_indices _ _ _ _ _ Hk).
    + by eapply (main_ok_update s k).
  - destruct Hfa as [Hr Hev]. simpl in Hr, Hev.
    destruct evs as [|ev evs].
    + destruct r as [d|e|]; [| |done]; simplify_eq; split; simpl.
      * eapply futures_update; try done. split; [done|]. simpl.
        rewrite app_nil_r in Hev. rewrite <- Hr. done.
      * by rewrite (futures_update_indices _ _ _ _ _ Hk).
      * by eapply (main_ok_update s k).
      * eapply futures_update; try done. split; [done|]. simpl.
        rewrite app_nil_r in Hev. rewrite <- Hr. done.
      * by rewrite (futures_update_indices _ _ _ _ _ Hk).
      * by eapply (main_ok_update s k).
    + simplify_eq. split; simpl.
      * eapply futures_update; try done.
        -- intros a' g Hne. by apply future_ok_other.
        -- split; [done|]. simpl. split; [done|].
           rewrite events_of_same, <- app_assoc. done.
      * rewrite (futures_update_indices _ _ _ _ _ Hk). intros j Hj.
        rewrite events_of_other; [by apply HT|].
        intros <-. apply Hj. apply list_elem_of_fmap.
        eexists. split; [|by eapply list_elem_of_lookup_2]. done.
      * by eapply (main_ok_update s k).
Qed.

Lemma step_invariant a s s' :
  invariant s -> step a s = Some s' -> invariant s'.
Proof.
  destruct a as [|k]; simpl.
  - apply main_step_invariant.
  - apply worker_step_invariant.
Qed.

Lemma run_invariant sched : forall s, invariant s -> invariant (run sched s).
Proof.
  induction sched as [|a sched IH]; intros s Hinv; simpl; [done|].
  apply IH. destruct (step a s) as [s'|] eqn:Hstep; simpl; [|done].
  by eapply step_invariant.
Qed.

(** A call whose executor cannot be built is over before it starts. *)

Lemma run_no_executor sched :
  max_concurrency self <= 0 -> run sched init = init.
Proof.
  intros Hc. unfold init.
  destruct (Z.leb_spec (max_concurrency self) 0); [|lia].
  induction sched as [|[|k] sched IH]; simpl; [done|apply IH..].
Qed.

(** ** Every move brings the return closer *)

Lemma list_sum_insert {A : Type} (f : A -> nat) (l : list A) : forall k x y,
  l !! k = Some x ->
  (list_sum (map f (<[k := y]> l)) + f x = list_sum (map f l) + f y)%nat.
Proof.
  induction l as [|z l IH]; intros [|k] x y Hk; simplify_eq/=; [lia|].
  specialize (IH k x y Hk). lia.
Qed.

Lemma fuel_submit i p :
  fuel (i, submit self server i p) = (length (fst (behaviour (i, p))) + 2)%nat.
Proof.
  unfold fuel, submit, behaviour. simpl.
  by destruct (_convert_document (server i) p (docling_options self)).
Qed.

Lemma main_step_measure s s' :
  main_step s = Some s' -> (measure s' < measure s)%nat.
Proof.
  unfold main_step, measure.
  destruct s as [[i|k|pending|r] pd futs tr]; simpl; [| | |done].
  - destruct (file_list !! i) as [file|] eqn:Hfile.
    + rewrite (drop_S _ _ _ Hfile). simpl.
      destruct (path file) as [p|]; intros; simplify_eq/=; [|lia].
      rewrite map_app, list_sum_app, length_app. simpl.
      rewrite fuel_submit. lia.
    + intros; simplify_eq/=. lia.
  - destruct (futs !! k) as [[i f]|] eqn:Hk.
    + apply lookup_lt_Some in Hk.
      destruct f as [j|j|[d|e|]]; intros; simplify_eq/=; lia.
    + intros; simplify_eq/=. lia.
  - destruct (forallb is_finished futs); intros; simplify_eq/=. lia.
Qed.

Lemma worker_step_measure k s s' :
  worker_step k s = Some s' -> (measure s' < measure s)%nat.
Proof.
  unfold worker_step, measure.
  destruct (futures s !! k) as [[i f]|] eqn:Hk; [|done].
  destruct f as [j|[[|ev evs] [d|e|]]|r]; try done;
    try destruct (_ && _); try done; intros; simplify_eq/=;
    rewrite length_insert;
    match goal with
    | |- context [<[k := ?y]> _] =>
        pose proof (list_sum_insert fuel _ _ _ y Hk) as Hsum
    end;
    unfold fuel in *; simpl in *; lia.
Qed.

Lemma step_measure a s s' :
  step a s = Some s' -> (measure s' < measure s)%nat.
Proof.
  destruct a as [|k]; simpl.
  - apply main_step_measure.
  - apply worker_step_measure.
Qed.

(** ** Some thread can always move *)

Lemma first_index {A : Type} (p : A -> bool) (l : list A) :
  existsb p l = true ->
  exists k x, l !! k = Some x /\ p x = true /\ existsb p (take k l) = false.
Proof.
  induction l as [|y l IH]; simpl; [done|].
  destruct (p y) eqn:Hy; simpl.
  - intros _. by exists 0%nat, y.
  - intros Hl. destruct (IH Hl) as (k & x & Hk & Hx & Hnone).
    exists (S k), x. simpl. by rewrite Hy.
Qed.

Lemma no_running (futs : list (nat * future)) :
  existsb is_running futs = false -> List.filter is_running futs = [].
Proof.
  induction futs as [|f futs IH]; simpl; [done|].
  destruct (is_running f); simpl; [done|]. apply IH.
Qed.

Lemma worker_can_move s :
  invariant s ->
  0 < max_concurrency self ->
  (forall a, a ∈ admitted file_list -> snd (behaviour a) <> Blocked) ->
  forallb is_finished (futures s) = false ->
  exists k s', worker_step k s = Some s'.
Proof.
  intros [HF _ _] Hc Hnb Hunf.
  destruct (existsb is_running (futures s)) eqn:Hrun.
  - apply first_index in Hrun as (k & [i f] & Hk & Hf & _).
    destruct f as [j|[evs r]|r]; try done.
    exists k. unfold worker_step. rewrite Hk.
    destruct evs as [|ev evs]; [|by eexists].
    destruct r as [d|e|]; [by eexists..|].
    destruct (Forall2_lookup_r _ _ _ _ _ HF Hk) as (a & Ha & _ & Hr & _).
    simpl in Hr. exfalso. apply (Hnb a); [|done].
    apply (admitted_take_incl (dispatched file_list s)).
    by eapply list_elem_of_lookup_2.
  - assert (Hq : existsb is_queued (futures s) = true).
    { clear HF. induction (futures s) as [|[i f] futs IH]; simpl in *; [done|].
      destruct f as [j|j|r]; simpl in *; try done.
      apply IH; [done|]. by destruct (forallb is_finished futs). }
    apply first_index in Hq as (k & [i f] & Hk & Hf & Hfirst).
    destruct f as [j|j|r]; try done.
    exists k. unfold worker_step. rewrite Hk, Hfirst.
    rewrite (no_running _ Hrun). simpl length.
    assert (Hlt : (Z.of_nat 0 <? max_concurrency self) = true)
      by (apply Z.ltb_lt; lia).
    rewrite Hlt. by eexists.
Qed.

Lemma progress s :
  invariant s ->
  0 < max_concurrency self ->
  (forall a, a ∈ admitted file_list -> snd (behaviour a) <> Blocked) ->
  (forall r, pc s <> Returned r) ->
  exists a s', step a s = Some s'.
Proof.
  intros Hinv Hc Hnb Hpc.
  destruct (forallb is_finished (futures s)) eqn:Hfin.
  - exists Main. simpl. unfold main_step.
    destruct (pc s) as [i|k|pending|r] eqn:Hpcs.
    + repeat case_match; eauto.
    + destruct (futures s !! k) as [[i f]|] eqn:Hk; [|eauto].
      rewrite forallb_forall in Hfin.
      assert (Hf : is_finished (i, f) = true).
      { apply Hfin, list_elem_of_In. by eapply list_elem_of_lookup_2. }
      destruct f as [j|j|[d|e|]]; try done; eauto.
      exfalso.
      assert (Hd : dispatched file_list s = length file_list).
      { unfold dispatched. by rewrite Hpcs. }
      by destruct (invariant_outcome s k i Blocked Hinv Hd Hk).
    + rewrite Hfin. eauto.
    + by destruct (Hpc r).
  - destruct (worker_can_move s Hinv Hc Hnb Hfin) as (k & s' & Hs).
    by exists (Worker k), s'.
Qed.

(** From every state of a call whose pipelines all end, some schedule
    leads to the return. *)

Lemma can_return s :
  invariant s ->
  0 < max_concurrency self ->
  (forall a, a ∈ admitted file_list -> snd (behaviour a) <> Blocked) ->
  exists sched r, pc (run sched s) = Returned r.
Proof.
  intros Hinv Hc Hnb.
  remember (measure s) as m eqn:Hm. revert s Hinv Hm.
  induction m as [m IH] using lt_wf_ind. intros s Hinv Hm.
  destruct (pc s) as [i|k|pending|r] eqn:Hpc; [| | |by exists [], r].
  all: destruct (progress s Hinv Hc Hnb) as (a & s' & Hstep);
    [intros r; by rewrite Hpc|].
  all: destruct (IH (measure s')) with (s := s') as (sched & r & Hr);
    [subst m; by eapply step_measure|by eapply step_invariant|done|].
  all: exists (a :: sched), r; simpl; by rewrite Hstep.
Qed.

(** ** What a returned call has done *)

Lemma admitted_sorted n : forall k k' a a',
  admitted (take n file_list) !! k = Some a ->
  admitted (take n file_list) !! k' = Some a' ->
  (k < k')%nat -> (fst a < fst a')%nat.
Proof.
  induction n as [|n IH]; intros k k' a a' Hk Hk' Hlt.
  { by rewrite take_0 in Hk. }
  destruct (file_list !! n) as [file|] eqn:Hn.
  - rewrite (admitted_take_S _ _ Hn) in Hk, Hk'.
    destruct (path file) as [p|]; [|rewrite app_nil_r in Hk, Hk'; eauto].
    apply lookup_app_Some in Hk' as [Hk'|[Hge Hk']].
    + rewrite lookup_app_l in Hk by (apply lookup_lt_Some in Hk'; lia). eauto.
    + apply list_lookup_singleton_Some in Hk' as [Hz <-].
      rewrite lookup_app_l in Hk by lia.
      destruct a as [j q]. simpl.
      eapply admitted_take_lt, list_elem_of_lookup_2, Hk.
  - apply lookup_ge_None in Hn.
    rewrite take_ge in Hk, Hk' by lia. rewrite take_ge in IH by lia. eauto.
Qed.

Lemma admitted_position i file p :
  file_list !! i = Some file ->
  path file = Some p ->
  exists k, admitted file_list !! k = Some (i, p).
Proof.
  intros Hi Hp. apply list_elem_of_lookup_1, elem_of_admitted. eauto.
Qed.

Lemma outcomes_lookup k o :
  outcomes !! k = Some o ->
  exists i p file,
    admitted file_list !! k = Some (i, p) /\
    file_list !! i = Some file /\
    path file = Some p /\
    o = snd (behaviour (i, p)).
Proof.
  unfold outcomes. rewrite list_lookup_fmap.
  destruct (admitted file_list !! k) as [[i p]|] eqn:Hk; [|done].
  intros; simplify_eq/=.
  destruct (proj1 (elem_of_admitted file_list i p)) as (file & Hi & Hp).
  { by eapply list_elem_of_lookup_2. }
  by exists i, p, file.
Qed.

Lemma outcomes_position k i p :
  admitted file_list !! k = Some (i, p) ->
  outcomes !! k = Some (snd (behaviour (i, p))).
Proof.
  intros Hk. unfold outcomes. by rewrite list_lookup_fmap, Hk.
Qed.

Lemma absent_admitted n :
  (n <= length file_list)%nat ->
  (absent (take n file_list) + length (admitted (take n file_list)) = n)%nat.
Proof.
  induction n as [|n IH]; intros Hn; [by rewrite take_0|].
  destruct (lookup_lt_is_Some_2 file_list n) as [file Hfile]; [lia|].
  rewrite (absent_take_S _ _ Hfile), (admitted_take_S _ _ Hfile), length_app.
  unfold no_path. destruct (path file); simpl; lia.
Qed.

Lemma absent_mono n m :
  (n <= m)%nat ->
  (absent (take n file_list) <= absent (take m file_list))%nat.
Proof.
  intros Hnm. unfold absent.
  rewrite <- (take_drop n (take m file_list)), take_take, Nat.min_l by lia.
  rewrite List.filter_app, length_app. lia.
Qed.

Lemma returned_values_length (os : list (outcome (option Data))) :
  forallb is_return os = true -> length (returned_values os) = length os.
Proof.
  induction os as [|[d|e|] os IH]; simpl; try done.
  intros Hos. by rewrite IH.
Qed.

Lemma forallb_take_lookup (os : list (outcome (option Data))) k k' o :
  forallb is_return (take k os) = true ->
  os !! k' = Some o ->
  (k' < k)%nat ->
  is_return o = true.
Proof.
  intros Hall Hk' Hlt. rewrite forallb_forall in Hall. apply Hall.
  apply list_elem_of_In. apply (list_elem_of_lookup_2 _ k').
  by rewrite lookup_take_lt.
Qed.

Lemma returned_cases sched r :
  0 < max_concurrency self ->
  pc (process_files sched) = Returned r ->
  invariant (process_files sched) /\
  forallb is_finished (futures (process_files sched)) = true /\
  ((r = Return (rollup_data file_list (processed_data (process_files sched))) /\
    forallb is_return outcomes = true /\
    processed_data (process_files sched) =
      replicate (absent file_list) None ++ returned_values outcomes) \/
   (exists e k,
      r = Raise e /\
      forallb is_return (take k outcomes) = true /\
      outcomes !! k = Some (Raise e) /\
      processed_data (process_files sched) =
        replicate (absent file_list) None ++ returned_values (take k outcomes))).
Proof.
  intros Hc Hpc.
  pose proof (run_invariant sched _ (init_invariant Hc)) as Hinv.
  split; [done|]. destruct Hinv as [_ _ HM].
  unfold main_ok in HM.
  unfold process_files in *. by rewrite Hpc in HM.
Qed.

(** The call returns the exception of the first pipeline that raised. *)

Lemma raise_aborts i file p e sched r :
  0 < max_concurrency self ->
  file_list !! i = Some file ->
  path file = Some p ->
  snd (behaviour (i, p)) = Raise e ->
  pc (process_files sched) = Returned r ->
  exists j file' p' e',
    (j <= i)%nat /\
    file_list !! j = Some file' /\
    path file' = Some p' /\
    snd (behaviour (j, p')) = Raise e' /\
    r = Raise e'.
Proof.
  intros Hc Hi Hp He Hpc.
  destruct (admitted_position _ _ _ Hi Hp) as [ki Hki].
  pose proof (outcomes_position _ _ _ Hki) as Hoi. rewrite He in Hoi.
  destruct (returned_cases _ _ Hc Hpc)
    as (_ & _ & [(_ & Hall & _)|(e' & k & -> & Hall & Hk & _)]).
  - rewrite <- (firstn_all outcomes) in Hall.
    pose proof (forallb_take_lookup _ _ _ _ Hall Hoi) as Hret.
    apply lookup_lt_Some in Hoi. by specialize (Hret Hoi).
  - destruct (outcomes_lookup _ _ Hk) as (j & p' & file' & Hadm & Hj & Hp' & Hej).
    exists j, file', p', e'. repeat split; try done.
    destruct (decide (ki < k)%nat) as [Hlt|Hge].
    + by pose proof (forallb_take_lookup _ _ _ _ Hall Hoi Hlt).
    + destruct (decide (k = ki)) as [->|Hne]; [by simplify_eq|].
      assert (Hs : (fst (j, p') < fst (i, p))%nat); [|simpl in Hs; lia].
      apply (admitted_sorted (length file_list) k ki);
        rewrite ?firstn_all; try done. lia.
Qed.

(** A call that raises got its exception from one of its pipelines. *)


(** When every pipeline returns, converted or not, so does the call,
    with one slot per input. *)

Lemma all_return_returns sched r :
  0 < max_concurrency self ->
  (forall a, a ∈ admitted file_list -> exists d, snd (behaviour a) = Return d) ->
  pc (process_files sched) = Returned r ->
  r = Return (rollup_data file_list (processed_data (process_files sched))) /\
  length (processed_data (process_files sched)) = length file_list.
Proof.
  intros Hc Hall Hpc.
  destruct (returned_cases _ _ Hc Hpc)
    as (_ & _ & [(-> & Hret & ->)|(e' & k & ? & _ & Hk & _)]).
  - split; [done|].
    rewrite length_app, length_replicate, (returned_values_length _ Hret).
    unfold outcomes. rewrite length_map.
    pose proof (absent_admitted (length file_list)) as Hn.
    rewrite firstn_all in Hn. lia.
  - destruct (outcomes_lookup _ _ Hk) as (j & p & file & Hadm & _ & _ & He).
    destruct (Hall (j, p)) as [d Hd]; [by eapply list_elem_of_lookup_2|].
    congruence.
Qed.

(** Every admitted pipeline of a returned call has run to its end. *)

Lemma returned_drained sched r i file p :
  0 < max_concurrency self ->
  pc (process_files sched) = Returned r ->
  file_list !! i = Some file ->
  path file = Some p ->
  exists k,
    futures (process_files sched) !! k = Some (i, Finished (snd (behaviour (i, p)))) /\
    events_of i (trace (process_files sched)) = fst (behaviour (i, p)) /\
    snd (behaviour (i, p)) <> Blocked.
Proof.
  intros Hc Hpc Hi Hp.
  destruct (returned_cases _ _ Hc Hpc) as ([HF _ _] & Hfin & _).
  unfold dispatched in HF. rewrite Hpc, firstn_all in HF.
  destruct (admitted_position _ _ _ Hi Hp) as [k Hk].
  destruct (Forall2_lookup_l _ _ _ _ _ HF Hk) as ([j f] & Hf & Hj & Hok).
  simpl in Hj, Hok. subst j.
  rewrite forallb_forall in Hfin.
  assert (Hfk : is_finished (i, f) = true).
  { apply Hfin, list_elem_of_In. by eapply list_elem_of_lookup_2. }
  destruct f as [?|?|r']; try done. destruct Hok as (-> & Hnb & Hev).
  by exists k.
Qed.

(** The first loop leaves a [None] behind for every input without a
    path it has been through. *)

Lemma slot_recorded s i file :
  invariant s ->
  file_list !! i = Some file ->
  path file = None ->
  (i < dispatched file_list s)%nat ->
  processed_data s !! absent (take i file_list) = Some None.
Proof.
  intros [_ _ HM] Hi Hp Hlt.
  pose proof (lookup_lt_Some _ _ _ Hi) as Hlen.
  assert (Hbound : forall n, (i < n)%nat ->
            (absent (take i file_list) < absent (take n file_list))%nat).
  { intros n Hn. pose proof (absent_mono (S i) n Hn) as Hm.
    rewrite (absent_take_S _ _ Hi) in Hm. unfold no_path in Hm.
    rewrite Hp in Hm. lia. }
  assert (Hall : (absent (take i file_list) < absent file_list)%nat).
  { specialize (Hbound (length file_list) Hlen). by rewrite firstn_all in Hbound. }
  unfold main_ok, dispatched in *.
  destruct (pc s) as [n|k|[e|]|r].
  - destruct HM as [_ ->]. apply lookup_replicate_2. by apply Hbound.
  - destruct HM as (_ & _ & ->).
    rewrite lookup_app_l by (by rewrite length_replicate).
    by apply lookup_replicate_2.
  - destruct HM as (k & _ & _ & ->).
    rewrite lookup_app_l by (by rewrite length_replicate).
    by apply lookup_replicate_2.
  - destruct HM as (_ & ->).
    rewrite lookup_app_l by (by rewrite length_replicate).
    by apply lookup_replicate_2.
  - destruct HM as [_ [(_ & _ & ->)|(e & k & _ & _ & _ & ->)]];
      (rewrite lookup_app_l by (by rewrite length_replicate));
      by apply lookup_replicate_2.
Qed.

(** C7.  An input whose path is [None] gets no pipeline: under every
    schedule and at every moment of the call, no future carries its
    index and the trace holds no event of a pipeline for it, a
    submission request least of all.  Once the first loop is past the
    input, [processed_data] holds the [None] appended for it, after the
    [None]s of the path-less inputs before it. *)

Theorem no_path_no_pipeline i file sched :
  file_list !! i = Some file ->
  path file = None ->
  events_of i (trace (process_files sched)) = [] /\
  (i ∉ map fst (futures (process_files sched))) /\
  (0 < max_concurrency self ->
   (i < dispatched file_list (process_files sched))%nat ->
   processed_data (process_files sched) !! absent (take i file_list) = Some None).
Proof.
  intros Hi Hp. unfold process_files.
  destruct (Z.le_gt_cases (max_concurrency self) 0) as [Hc|Hc].
  - rewrite (run_no_executor _ Hc). unfold init.
    destruct (Z.leb_spec (max_concurrency self) 0); [|lia]. simpl.
    split; [done|]. split; [|lia]. apply not_elem_of_nil.
  - assert (Hc' : 0 < max_concurrency self) by lia.
    pose proof (run_invariant sched _ (init_invariant Hc')) as Hinv.
    assert (Hnot : i ∉ map fst (futures (run sched init))).
    { destruct Hinv as [HF _ _]. rewrite (futures_indices _ _ _ HF).
      intros Hin. apply list_elem_of_fmap in Hin as ([j q] & Hj & Hin).
      simpl in Hj. subst j. apply admitted_take_incl in Hin.
      apply elem_of_admitted in Hin as (file' & Hi' & Hp'). congruence. }
    split; [by apply (inv_trace _ _ _ _ Hinv)|]. split; [done|].
    intros _ Hlt. by eapply slot_recorded.
Qed.

(** C9.  A call that returns an exception to its caller has let every
    pipeline it admitted run to its end first: each input with a path
    has its future, completed, and every event of its pipeline is in the
    trace.  The calling thread cannot leave the [with] block while a
    future is not done. *)

Theorem pool_drained_before_error_returns sched e :
  0 < max_concurrency self ->
  pc (process_files sched) = Returned (Raise e) ->
  (forall i file p,
     file_list !! i = Some file ->
     path file = Some p ->
     exists k,
       futures (process_files sched) !! k
         = Some (i, Finished (snd (behaviour (i, p)))) /\
       events_of i (trace (process_files sched)) = fst (behaviour (i, p)) /\
       snd (behaviour (i, p)) <> Blocked) /\
  (forall s pending,
     pc s = Leaving pending ->
     forallb is_finished (futures s) = false ->
     main_step s = None).
Proof.
  intros Hc Hpc. split.
  - intros i file p Hi Hp. by eapply returned_drained.
  - intros s pending Hs Hf. unfold main_step. by rewrite Hs, Hf.
Qed.

(** C5.  A transport or protocol error in the pipeline of one input is
    fatal to the call: under every schedule the call, when it returns,
    raises, and what it raises is the exception of the first pipeline in
    input order that raised one; none is turned into an absent slot.
    Pipelines that return, [None] included, abort nothing: when all do,
    the call returns one slot per input.  And when every pipeline ends,
    some schedule brings the call to its return. *)

Theorem fatal_errors_abort_batch :
  0 < max_concurrency self ->
  (forall i file p bytes e sched r,
     file_list !! i = Some file ->
     path file = Some p ->
     read_bytes p = Some bytes ->
     fault (server i) e ->
     pc (process_files sched) = Returned r ->
     snd (behaviour (i, p)) = Raise e /\
     exists j file' p' e',
       (j <= i)%nat /\
       file_list !! j = Some file' /\
       path file' = Some p' /\
       snd (behaviour (j, p')) = Raise e' /\
       r = Raise e') /\
  (forall sched r,
     (forall a, a ∈ admitted file_list -> exists d, snd (behaviour a) = Return d) ->
     pc (process_files sched) = Returned r ->
     r = Return (rollup_data file_list (processed_data (process_files sched))) /\
     length (processed_data (process_files sched)) = length file_list) /\
  ((forall a, a ∈ admitted file_list -> snd (behaviour a) <> Blocked) ->
   exists sched r, pc (process_files sched) = Returned r).
Proof.
  intros Hc. split; [|split].
  - intros i file p bytes e sched r Hi Hp Hread Hfault Hpc.
    assert (He : snd (behaviour (i, p)) = Raise e).
    { unfold behaviour. simpl. by eapply fault_raises. }
    split; [done|]. by eapply raise_aborts.
  - intros sched r Hall Hpc. by apply all_return_returns.
  - intros Hnb. by apply can_return; [apply init_invariant|..].
Qed.

(** C6.  A job that reached "success" and whose result body holds a
    document object without ["json_content"], or with a null one: the
    pipeline logs and returns [None].  The call is not aborted by it:
    an exception raised by the call is that of the pipeline of another
    input. *)


(** C10.  A result body without the ["document"] key: the pipeline
    raises [KeyError], and the call, when it returns, raises too (the
    exception of the first pipeline that raised).  Conversely a pipeline
    that ends with [None] after its result fetch found a ["document"] in
    the body, and when it ends so on the missing payload of a document
    object, ["json_content"] is absent from that object or null. *)


End BatchFacts.

(** * Further properties of one pipeline *)

Section PipelineTraces.

Context `{Documents}.

#[local] Arguments poll_loop : simpl never.
#[local] Arguments fetch_result : simpl never.

Lemma poll_events_are_polls ids :
  forallb is_poll (flat_map one_poll ids) = true.
Proof. induction ids as [|task_id ids IH]; simpl; [done|apply IH]. Qed.

(** The events of the loop are whole wait-and-poll cycles, followed by
    at most one closing event; nothing follows them when the loop is
    left by its condition. *)

Lemma poll_loop_shape client : forall task n,
  exists ids tail,
    fst (poll_loop client task n) = flat_map one_poll ids ++ tail /\
    is_closing tail = true /\
    (forall task_end rest,
       snd (poll_loop client task n) = LoopExit task_end rest -> tail = []) /\
    (forall rq, In (Request rq) tail -> False).
Proof.
  induction client as [|reply client IH]; intros task n;
    rewrite poll_loop_unfold.
  - destruct (subscript task "task_status") as [|st]; [by exists [], []|].
    destruct (is_terminal st); [by exists [], []|].
    destruct (subscript task "task_id") as [|tid].
    + exists [], [Sleep 2]. simpl. repeat split; try done. by intros rq [|[]].
    + exists [tid], []. simpl. repeat split; try done.
  - destruct (subscript task "task_status") as [|st]; [by exists [], []|].
    destruct (is_terminal st); [by exists [], []|].
    destruct (subscript task "task_id") as [|tid].
    { exists [], [Sleep 2]. simpl. repeat split; try done. by intros rq [|[]]. }
    destruct reply as [r|]; [|by exists [tid], []].
    destruct (status_code r >? retry_status_code).
    + destruct (n + 1 >? MAX_500_RETRIES).
      * exists [tid], [Log (TooManyHttpFailures (status_code r))]. simpl.
        repeat split; try done. by intros rq [|[]].
      * destruct (IH task (n + 1)) as (ids & tail & Heq & Hc & Hexit & Hrq).
        exists (tid :: ids), tail. simpl. rewrite Heq. by repeat split.
    + destruct (json r) as [t|]; [|by exists [tid], []].
      destruct (IH t n) as (ids & tail & Heq & Hc & Hexit & Hrq).
      exists (tid :: ids), tail. simpl. rewrite Heq. by repeat split.
Qed.

Lemma fetch_result_shape client file_path task :
  is_closing (fst (fetch_result client file_path task)) = true.
Proof.
  unfold fetch_result, emit.
  repeat (case_match; simpl; try done).
Qed.

Lemma trace_shape client file_path options :
  (read_bytes file_path = None /\
   _convert_document client file_path options = ([], Raise OSError)) \/
  exists bytes ids tail,
    read_bytes file_path = Some bytes /\
    fst (_convert_document client file_path options) =
      submission file_path options bytes :: flat_map one_poll ids ++ tail /\
    is_closing tail = true.
Proof.
  unfold _convert_document.
  destruct (read_bytes file_path) as [bytes|] eqn:Hread; [right|by left].
  exists bytes. fold (submission file_path options bytes).
  destruct client as [|[sub|] client]; [by exists [], []| |by exists [], []].
  destruct (raise_for_status sub); [by exists [], []|].
  destruct (json sub) as [task|]; [|by exists [], []].
  destruct (poll_loop_shape client task 0) as (ids & tail & Heq & Hc & Hexit & _).
  destruct (poll_loop client task 0) as [evs fin] eqn:Hloop. simpl in Heq, Hexit.
  subst evs. destruct fin as [task_end rest| | |];
    try (exists ids, tail; by repeat split).
  rewrite (Hexit _ _ eq_refl), app_nil_r.
  pose proof (fetch_result_shape rest file_path task_end) as Hf.
  destruct (fetch_result rest file_path task_end) as [evs' r]. simpl in *.
  by exists ids, evs'.
Qed.

(** The trace of a pipeline.  Unless the file cannot be read, in which
    case nothing is requested, it opens with the one submission, goes on
    with whole wait-and-poll cycles, and closes with at most one more
    request, the result fetch, after which only a log line may come.  No
    second submission, no poll after the fetch, no poll without its
    wait. *)


Lemma closing_no_submission tail ev :
  is_closing tail = true -> In ev tail -> is_submission ev = false.
Proof.
  intros Hc Hin. unfold is_closing in Hc.
  repeat case_match; try done; subst; simpl in Hin;
    intuition (subst; done).
Qed.

(** The only submission among the events of a pipeline is its first
    event, with the options and the file it was given. *)

Lemma submission_is_first client file_path options ev :
  In ev (fst (_convert_document client file_path options)) ->
  is_submission ev = true ->
  exists bytes,
    read_bytes file_path = Some bytes /\ ev = submission file_path options bytes.
Proof.
  intros Hin Hsub.
  destruct (trace_shape client file_path options)
    as [[_ Heq]|(bytes & ids & tail & Hread & Heq & Hc)].
  - rewrite Heq in Hin. done.
  - rewrite Heq in Hin. destruct Hin as [<-|Hin]; [by exists bytes|].
    apply in_app_or in Hin as [Hin|Hin].
    + pose proof (poll_events_are_polls ids) as Hp.
      rewrite forallb_forall in Hp. specialize (Hp _ Hin).
      by destruct ev as [[]| |].
    + by rewrite (closing_no_submission _ _ Hc Hin) in Hsub.
Qed.

(** A loop that gave up was pending when it started. *)

Lemma gave_up_was_pending client task n evs :
  poll_loop client task n = (evs, LoopReturnNone) -> is_pending task = true.
Proof.
  rewrite poll_loop_unfold. unfold is_pending.
  destruct (subscript task "task_status") as [|st]; [done|].
  destruct (is_terminal st); [done|].
  by destruct (subscript task "task_id").
Qed.

Lemma poll_loop_gave_up client : forall task n evs,
  n <= MAX_500_RETRIES ->
  poll_loop client task n = (evs, LoopReturnNone) ->
  exists rs r rest evs',
    client = map Ok rs ++ Ok r :: rest /\
    forallb keeps_polling rs = true /\
    is_high r = true /\
    n + Z.of_nat (length (List.filter is_high rs)) = MAX_500_RETRIES /\
    evs = evs' ++ [Log (TooManyHttpFailures (status_code r))] /\
    forallb is_poll evs' = true /\
    length evs' = (2 * (length rs + 1))%nat.
Proof.
  induction client as [|reply client IH]; intros task n evs Hn Hl;
    pose proof (gave_up_was_pending _ _ _ _ Hl) as Hp;
    destruct (is_pending_inv _ Hp) as (st & tid & Hs & Ht & Hid);
    rewrite poll_loop_unfold, Hs, Ht, Hid in Hl; [done|].
  destruct reply as [r|]; [|done].
  destruct (status_code r >? retry_status_code) eqn:Hh.
  - destruct (Z.gtb_spec (n + 1) MAX_500_RETRIES) as [Hgt|Hle].
    + unfold emit in Hl. simpl in Hl. simplify_eq.
      exists [], r, client, (one_poll tid). simpl.
      repeat split; try done. lia.
    + destruct (poll_loop client task (n + 1)) as [evs0 fin] eqn:Hrec.
      unfold emit in Hl. simpl in Hl. simplify_eq.
      destruct (IH _ _ _ Hle Hrec)
        as (rs & r' & rest & evs' & -> & Hk & Hr' & Hcount & -> & He & Hlen).
      assert (Hhr : is_high r = true) by done.
      assert (Hkr : keeps_polling r = true)
        by (unfold keeps_polling; by rewrite Hhr).
      exists (r :: rs), r', rest, (one_poll tid ++ evs'). simpl.
      rewrite Hkr, Hhr. simpl. repeat split; try done; lia.
  - destruct (json r) as [t|] eqn:Hj; [|done].
    destruct (poll_loop client t n) as [evs0 fin] eqn:Hrec.
    unfold emit in Hl. simpl in Hl. simplify_eq.
    pose proof (gave_up_was_pending _ _ _ _ Hrec) as Hpt.
    destruct (IH _ _ _ Hn Hrec)
      as (rs & r' & rest & evs' & -> & Hk & Hr' & Hcount & -> & He & Hlen).
    assert (Hhr : is_high r = false) by done.
    assert (Hkr : keeps_polling r = true)
      by (unfold keeps_polling; by rewrite Hhr, Hj, Hpt).
    exists (r :: rs), r', rest, (one_poll tid ++ evs'). simpl.
    rewrite Hkr, Hhr. simpl. repeat split; try done; lia.
Qed.

(** The loop gives up on the budget alone, and not before it is spent:
    a loop that ends by the [return None] of line 121 has been answered
    above the threshold [MAX_500_RETRIES + 1] times in all, the last
    time by the response it names in its log line, and every other
    response was one it tolerates. *)

Theorem give_up_only_when_budget_spent client task evs :
  poll_loop client task 0 = (evs, LoopReturnNone) ->
  exists rs r rest evs',
    client = map Ok rs ++ Ok r :: rest /\
    forallb keeps_polling rs = true /\
    is_high r = true /\
    Z.of_nat (length (List.filter is_high (rs ++ [r]))) = MAX_500_RETRIES + 1 /\
    evs = evs' ++ [Log (TooManyHttpFailures (status_code r))] /\
    forallb is_poll evs' = true.
Proof.
  intros Hl.
  destruct (poll_loop_gave_up client task 0 evs) as
    (rs & r & rest & evs' & Hc & Hk & Hr & Hcount & He & Hp & _); [done..|].
  exists rs, r, rest, evs'. repeat split; try done.
  rewrite List.filter_app, length_app. simpl. rewrite Hr. simpl. lia.
Qed.

(** A result body whose document holds a payload: the validator
    decides.  When it accepts, the pipeline returns the validated
    document together with [str(file_path)], and logs nothing. *)

Theorem valid_payload_is_converted
  file_path options bytes sub task client evs task_end task_id r rest
  result d json_content document :
  read_bytes file_path = Some bytes ->
  is_success sub = true ->
  json sub = Some task ->
  poll_loop client task 0 = (evs, LoopExit task_end (Ok r :: rest)) ->
  subscript task_end "task_id" = inr task_id ->
  is_success r = true ->
  json r = Some result ->
  subscript result "document" = inr (PDict d) ->
  dict_get "json_content" d = Some json_content ->
  is_none json_content = false ->
  model_validate json_content = inr document ->
  _convert_document (Ok sub :: client) file_path options =
    (submission file_path options bytes :: evs ++ [Request (GET_result task_id)],
     Return (Some (mkData document (path_str file_path)))).
Proof.
  intros Hread Hok Hj Hloop Hid Hokr Hjr Hdoc Hc Hnn Hv.
  rewrite (convert_after_submission _ _ _ bytes sub task) by done.
  rewrite Hloop. unfold fetch_result, raise_for_status, emit.
  rewrite Hid, Hokr, Hjr, Hdoc. simpl. rewrite Hc, Hnn, Hv. done.
Qed.

(** When the validator rejects the payload, the pipeline logs the
    diagnostic and returns [None]: no exception leaves it. *)

Theorem invalid_payload_is_skipped
  file_path options bytes sub task client evs task_end task_id r rest
  result d json_content diagnostic :
  read_bytes file_path = Some bytes ->
  is_success sub = true ->
  json sub = Some task ->
  poll_loop client task 0 = (evs, LoopExit task_end (Ok r :: rest)) ->
  subscript task_end "task_id" = inr task_id ->
  is_success r = true ->
  json r = Some result ->
  subscript result "document" = inr (PDict d) ->
  dict_get "json_content" d = Some json_content ->
  is_none json_content = false ->
  model_validate json_content = inl diagnostic ->
  _convert_document (Ok sub :: client) file_path options =
    (submission file_path options bytes
       :: evs ++ [Request (GET_result task_id); Log (ValidationFailed diagnostic)],
     Return None).
Proof.
  intros Hread Hok Hj Hloop Hid Hokr Hjr Hdoc Hc Hnn Hv.
  rewrite (convert_after_submission _ _ _ bytes sub task) by done.
  rewrite Hloop. unfold fetch_result, raise_for_status, emit.
  rewrite Hid, Hokr, Hjr, Hdoc. simpl. rewrite Hc, Hnn, Hv. done.
Qed.

(** Where a [Data] comes from: the document is one the validator
    returned, the path is that of the file the pipeline was given. *)

Lemma fetch_result_data client p task data :
  snd (fetch_result client p task) = Return (Some data) ->
  file_path data = path_str p /\
  exists json_content, model_validate json_content = inr (doc data).
Proof.
  unfold fetch_result, emit.
  repeat (case_match; simpl; try done).
  intros; simplify_eq. simpl. eauto.
Qed.

Lemma convert_data client p options data :
  snd (_convert_document client p options) = Return (Some data) ->
  file_path data = path_str p /\
  exists json_content, model_validate json_content = inr (doc data).
Proof.
  unfold _convert_document, emit.
  destruct (read_bytes p); [|done].
  destruct client as [|[sub|] client]; try done.
  destruct (raise_for_status sub); [done|].
  destruct (json sub) as [task|]; [|done].
  destruct (poll_loop client task 0) as [evs [task_end rest| | |]]; try done.
  pose proof (fetch_result_data rest p task_end data) as Hf.
  destruct (fetch_result rest p task_end) as [evs' r]. simpl in *. done.
Qed.

End PipelineTraces.

(** * The merged options (lines 141-146) *)

Section Options.

Lemma dict_get_set key key' v d :
  dict_get key (dict_set key' v d) =
  if String.eqb key' key then Some v else dict_get key d.
Proof.
  induction d as [|[k x] d IH]; simpl.
  - done.
  - destruct (String.eqb k key') eqn:Hk; simpl.
    + apply String.eqb_eq in Hk. subst k.
      by destruct (String.eqb key' key).
    + destruct (String.eqb k key) eqn:Hkk; [|done].
      apply String.eqb_eq in Hkk. subst k.
      rewrite String.eqb_sym in Hk. by rewrite Hk.
Qed.

Lemma dict_get_update key extra : forall d,
  dict_get key (dict_update d extra) =
  match dict_get key (rev extra) with
  | Some v => Some v
  | None => dict_get key d
  end.
Proof.
  unfold dict_update.
  induction extra as [|[k v] extra IH] using rev_ind; intros d; [done|].
  rewrite fold_left_app, rev_app_distr. simpl.
  rewrite dict_get_set, IH. by destruct (String.eqb k key).
Qed.

Lemma dict_get_rev_unique key (d : list (string * pyval)) :
  NoDup (map fst d) -> dict_get key (rev d) = dict_get key d.
Proof.
  induction d as [|[k v] d IH]; simpl; [done|].
  intros Hnd. apply NoDup_cons in Hnd as [Hk Hnd].
  assert (Happ : forall d1 d2,
            dict_get key (d1 ++ d2) =
            match dict_get key d1 with
            | Some x => Some x
            | None => dict_get key d2
            end).
  { induction d1 as [|[k1 v1] d1 IH1]; intros d2; simpl; [done|].
    by destruct (String.eqb k1 key). }
  rewrite Happ, (IH Hnd). simpl.
  destruct (String.eqb k key) eqn:Hkk.
  - apply String.eqb_eq in Hkk. subst k.
    destruct (dict_get key d) as [x|] eqn:Hd; [|done].
    exfalso. apply Hk. clear -Hd.
    induction d as [|[k' v'] d IH]; simpl in *; [done|].
    destruct (String.eqb k' key) eqn:Hk'.
    + apply String.eqb_eq in Hk'. subst. apply list_elem_of_here.
    + apply list_elem_of_further. by apply IH.
  - by destruct (dict_get key d).
Qed.

(** The options sent to the service: an option of [docling_serve_opts]
    wins over the default of the same name, and the three defaults
    stand for the names it leaves out.  [docling_serve_opts] is a
    dictionary: no name occurs twice in it. *)

Theorem options_override_defaults (self : Component) key :
  NoDup (map fst (docling_serve_opts self)) ->
  subscript (docling_options self) key =
  match dict_get key (docling_serve_opts self) with
  | Some v => inr v
  | None =>
      if String.eqb "to_formats" key then inr (PList [PStr "json"])
      else if String.eqb "image_export_mode" key then inr (PStr "placeholder")
      else if String.eqb "return_as_file" key then inr (PBool false)
      else inl (KeyError key)
  end.
Proof.
  intros Hnd. unfold docling_options, subscript.
  rewrite dict_get_update, (dict_get_rev_unique _ _ Hnd).
  destruct (dict_get key (docling_serve_opts self)); [done|].
  cbn [dict_get].
  destruct (String.eqb "to_formats" key); [done|].
  destruct (String.eqb "image_export_mode" key); [done|].
  by destruct (String.eqb "return_as_file" key).
Qed.

End Options.


(** * Further properties of the batch operation *)

Section BatchTraces.

Context `{FileComponent}.

Variable self : Component.
Variable server : nat -> list reply.
Variable file_list : list BaseFile.

Local Notation behaviour := (behaviour self server).
Local Notation outcomes := (outcomes self server file_list).
Local Notation future_ok := (future_ok self server).
Local Notation main_step := (main_step self server file_list).
Local Notation worker_step := (worker_step self).
Local Notation step := (step self server file_list).
Local Notation run := (run self server file_list).
Local Notation process_files := (process_files self server file_list).
Local Notation init := (init self).
Local Notation main_ok := (main_ok self server file_list).
Local Notation invariant := (invariant self server file_list).

Lemma run_app sched1 : forall sched2 s,
  run (sched1 ++ sched2) s = run sched2 (run sched1 s).
Proof. induction sched1 as [|a sched1 IH]; intros sched2 s; simpl; [done|apply IH]. Qed.

Lemma reachable_invariant sched :
  0 < max_concurrency self -> invariant (process_files sched).
Proof. intros Hc. by apply run_invariant, init_invariant. Qed.

Lemma no_executor_state sched :
  max_concurrency self <= 0 ->
  process_files sched = mkState (Returned (Raise ValueError)) [] [] [].
Proof.
  intros Hc. unfold process_files. rewrite (run_no_executor _ _ _ _ Hc).
  unfold init. by destruct (Z.leb_spec (max_concurrency self) 0); [|lia].
Qed.

(** ** The log line of the calling thread *)

Lemma caller_events_app (tr1 tr2 : list (origin * event)) :
  caller_events (tr1 ++ tr2) = caller_events tr1 ++ caller_events tr2.
Proof. apply omap_app. Qed.

Lemma step_log a s s' :
  caller_events (trace s) = expected_log (pc s) ->
  step a s = Some s' ->
  caller_events (trace s') = expected_log (pc s').
Proof.
  intros Hlog Hstep. destruct a as [|k]; simpl in Hstep.
  - unfold main_step in Hstep.
    destruct (pc s) as [i|k|pending|r] eqn:Hpc; simpl in Hlog.
    + repeat case_match; by simplify_eq/=.
    + destruct (futures s !! k) as [[i f]|]; [|by simplify_eq/=].
      destruct f as [j|j|[d|e|]]; simplify_eq/=; [done|].
      destruct (caught e); [|done].
      by rewrite caller_events_app, Hlog.
    + destruct (forallb is_finished (futures s)); [|done].
      simplify_eq/=. by destruct pending.
    + done.
  - unfold worker_step in Hstep.
    destruct (futures s !! k) as [[i f]|]; [|done].
    destruct f as [j|[[|ev evs] [d|e|]]|r]; try done;
      try destruct (_ && _); try done; simplify_eq/=; try done.
    all: by rewrite caller_events_app, app_nil_r.
Qed.


Lemma log_of_caller sched :
  0 < max_concurrency self ->
  caller_events (trace (process_files sched))
    = expected_log (pc (process_files sched)).
Proof.
  intros Hc. unfold process_files.
  assert (Hinit : caller_events (trace init) = expected_log (pc init)).
  { unfold init. by destruct (Z.leb_spec (max_concurrency self) 0); [lia|]. }
  revert Hinit. generalize init.
  induction sched as [|a sched IH]; intros s Hs; simpl; [done|].
  apply IH. destruct (step a s) as [s'|] eqn:Hstep; simpl; [|done].
  by eapply step_log.
Qed.

(** The calling thread logs "Error occurred" once, when it has met an
    exception of the classes its [except] clause lists, and never
    otherwise: a [TypeError] or an [OSError] leaves the call without the
    line, a call that returns its slots has logged nothing. *)

Theorem caller_logs_caught_errors sched :
  0 < max_concurrency self ->
  caller_events (trace (process_files sched))
    = expected_log (pc (process_files sched)).
Proof. apply log_of_caller. Qed.

(** ** The concurrency limit *)

Lemma filter_length_insert {A : Type} (p : A -> bool) (l : list A) :
  forall k x y,
    l !! k = Some x ->
    (length (List.filter p (<[k := y]> l)) + (if p x then 1 else 0) =
     length (List.filter p l) + (if p y then 1 else 0))%nat.
Proof.
  induction l as [|z l IH]; intros [|k] x y Hk; simplify_eq/=.
  - destruct (p x), (p y); simpl; lia.
  - specialize (IH k x y Hk). destruct (p z); simpl; lia.
Qed.

Lemma step_running a s s' :
  Z.of_nat (running s) <= Z.max 0 (max_concurrency self) ->
  step a s = Some s' ->
  Z.of_nat (running s') <= Z.max 0 (max_concurrency self).
Proof.
  unfold running. intros Hrun Hstep. destruct a as [|k]; simpl in Hstep.
  - unfold main_step in Hstep.
    destruct (pc s) as [i|k|pending|r].
    + destruct (file_list !! i) as [file|]; [|by simplify_eq/=].
      destruct (path file) as [p|]; simplify_eq/=; [|done].
      rewrite List.filter_app, length_app. unfold submit. simpl.
      destruct (_convert_document (server i) p (docling_options self)).
      simpl. lia.
    + destruct (futures s !! k) as [[i f]|]; [|by simplify_eq/=].
      destruct f as [j|j|[d|e|]]; by simplify_eq/=.
    + destruct (forallb is_finished (futures s)); by simplify_eq/=.
    + done.
  - unfold worker_step in Hstep.
    destruct (futures s !! k) as [[i f]|] eqn:Hk; [|done].
    destruct f as [j|[[|ev evs] [d|e|]]|r]; try done.
    + destruct (Z.ltb_spec
                  (Z.of_nat (length (List.filter is_running (futures s))))
                  (max_concurrency self)); [|done].
      destruct (negb _); [|done]. simplify_eq/=.
      pose proof (filter_length_insert is_running _ _ _ (i, Running j) Hk) as Hl.
      simpl in Hl. lia.
    + simplify_eq/=.
      pose proof (filter_length_insert is_running _ _ _
                    (i, Finished (Return d)) Hk) as Hl.
      simpl in Hl. lia.
    + simplify_eq/=.
      pose proof (filter_length_insert is_running _ _ _
                    (i, Finished (Raise e)) Hk) as Hl.
      simpl in Hl. lia.
    + simplify_eq/=.
      pose proof (filter_length_insert is_running _ _ _
                    (i, Running (Job evs (Return d))) Hk) as Hl.
      simpl in Hl. lia.
    + simplify_eq/=.
      pose proof (filter_length_insert is_running _ _ _
                    (i, Running (Job evs (Raise e))) Hk) as Hl.
      simpl in Hl. lia.
    + simplify_eq/=.
      pose proof (filter_length_insert is_running _ _ _
                    (i, Running (Job evs Blocked)) Hk) as Hl.
      simpl in Hl. lia.
Qed.

(** Under every schedule and at every moment of the call, the pipelines
    being executed are at most [max_concurrency]. *)

Theorem concurrency_bounded sched :
  Z.of_nat (running (process_files sched)) <= Z.max 0 (max_concurrency self).
Proof.
  unfold process_files.
  assert (Hinit : Z.of_nat (running init) <= Z.max 0 (max_concurrency self)).
  { unfold init, running.
    destruct (max_concurrency self <=? 0); simpl; lia. }
  revert Hinit. generalize init.
  induction sched as [|a sched IH]; intros s Hs; simpl; [done|].
  apply IH. destruct (step a s) as [s'|] eqn:Hstep; simpl; [|done].
  by eapply step_running.
Qed.

(** ** What the trace holds of each pipeline *)

Lemma future_is_admitted s k i f :
  invariant s ->
  futures s !! k = Some (i, f) ->
  exists file p,
    file_list !! i = Some file /\ path file = Some p /\
    future_ok (trace s) (i, p) (i, f).
Proof.
  intros [HF _ _] Hk.
  destruct (Forall2_lookup_r _ _ _ _ _ HF Hk) as ([j p] & Ha & Hok).
  pose proof Hok as [Hj _]. simpl in Hj. subst j.
  assert (Hin : (i, p) ∈ admitted file_list).
  { apply (admitted_take_incl server file_list (dispatched file_list s)).
    by eapply list_elem_of_lookup_2. }
  apply elem_of_admitted in Hin as (file & Hi & Hp).
  by exists file, p.
Qed.

Lemma no_future_without_path s i :
  invariant s ->
  (forall file p, file_list !! i = Some file -> path file = Some p -> False) ->
  i ∉ map fst (futures s).
Proof.
  intros Hinv Hno Hin.
  apply list_elem_of_fmap in Hin as ([j f] & Hj & Hin). simpl in Hj. subst j.
  apply list_elem_of_lookup_1 in Hin as [k Hk].
  destruct (future_is_admitted _ _ _ _ Hinv Hk) as (file & p & Hi & Hp & _).
  eauto.
Qed.

Lemma events_prefix sched i file p :
  file_list !! i = Some file ->
  path file = Some p ->
  events_of i (trace (process_files sched)) `prefix_of` fst (behaviour (i, p)).
Proof.
  intros Hi Hp.
  destruct (Z.le_gt_cases (max_concurrency self) 0) as [Hc|Hc].
  { rewrite (no_executor_state _ Hc). simpl. apply prefix_nil. }
  assert (Hinv : invariant (process_files sched))
    by (apply reachable_invariant; lia).
  destruct (decide (i ∈ map fst (futures (process_files sched)))) as [Hin|Hout].
  - apply list_elem_of_fmap in Hin as ([j f] & Hj & Hin). simpl in Hj. subst j.
    apply list_elem_of_lookup_1 in Hin as [k Hk].
    destruct (future_is_admitted _ _ _ _ Hinv Hk)
      as (file' & p' & Hi' & Hp' & _ & Hok).
    simplify_eq. simpl in Hok.
    destruct f as [j|j|r].
    + destruct Hok as [_ ->]. apply prefix_nil.
    + destruct Hok as [_ <-]. by eexists.
    + destruct Hok as (_ & _ & ->). done.
  - rewrite (inv_trace _ _ _ _ Hinv i Hout). apply prefix_nil.
Qed.

(** However the threads interleave, what the trace holds of one
    pipeline is an initial segment of that pipeline's own events: its
    requests go out in the order of the code, none twice, none
    skipped. *)

Theorem pipeline_events_in_order sched i file p :
  file_list !! i = Some file ->
  path file = Some p ->
  events_of i (trace (process_files sched)) `prefix_of` fst (behaviour (i, p)).
Proof. apply events_prefix. Qed.

Lemma elem_events_of i ev (tr : list (origin * event)) :
  (pipeline i, ev) ∈ tr -> In ev (events_of i tr).
Proof.
  intros Hin. apply list_elem_of_In. unfold events_of.
  apply list_elem_of_omap. exists (pipeline i, ev). split; [done|].
  simpl. by rewrite Nat.eqb_refl.
Qed.

(** Every submission request in the trace is the one submission of the
    pipeline of an input with a path: it carries the merged options of
    the call, and the encoded bytes and the name of that input's
    file. *)

Theorem submissions_carry_options sched i payload :
  (pipeline i, Request (POST_convert_source_async payload))
    ∈ trace (process_files sched) ->
  exists file p bytes,
    file_list !! i = Some file /\
    path file = Some p /\
    read_bytes p = Some bytes /\
    Request (POST_convert_source_async payload)
      = submission p (docling_options self) bytes.
Proof.
  intros Hin. apply elem_events_of in Hin.
  destruct (Z.le_gt_cases (max_concurrency self) 0) as [Hc|Hc].
  { by rewrite (no_executor_state _ Hc) in Hin. }
  assert (Hinv : invariant (process_files sched))
    by (apply reachable_invariant; lia).
  destruct (file_list !! i) as [file|] eqn:Hi.
  2: { rewrite (inv_trace _ _ _ _ Hinv i) in Hin; [done|].
       apply no_future_without_path; [done|]. intros. congruence. }
  destruct (path file) as [p|] eqn:Hp.
  2: { rewrite (inv_trace _ _ _ _ Hinv i) in Hin; [done|].
       apply no_future_without_path; [done|]. intros. congruence. }
  destruct (events_prefix sched i file p Hi Hp) as [rest Heq].
  assert (Hin' : In (Request (POST_convert_source_async payload))
                   (fst (behaviour (i, p)))).
  { rewrite Heq. apply in_or_app. by left. }
  unfold behaviour in Hin'. simpl in Hin'.
  destruct (submission_is_first _ _ _ _ Hin' eq_refl) as (bytes & Hread & Heq').
  by exists file, p, bytes.
Qed.

(** ** The result does not depend on the schedule *)

Lemma returned_events sched r i :
  0 < max_concurrency self ->
  pc (process_files sched) = Returned r ->
  events_of i (trace (process_files sched)) =
  match file_list !! i with
  | Some file =>
      match path file with
      | Some p => fst (behaviour (i, p))
      | None => []
      end
  | None => []
  end.
Proof.
  intros Hc Hpc.
  pose proof (reachable_invariant sched Hc) as Hinv.
  destruct (file_list !! i) as [file|] eqn:Hi.
  - destruct (path file) as [p|] eqn:Hp.
    + by destruct (returned_drained _ _ _ _ _ _ _ _ Hc Hpc Hi Hp) as (k & _ & ? & _).
    + apply (inv_trace _ _ _ _ Hinv), no_future_without_path; [done|].
      intros. congruence.
  - apply (inv_trace _ _ _ _ Hinv), no_future_without_path; [done|].
    intros. congruence.
Qed.

Lemma first_raise_unique (os : list (outcome (option Data))) k k' e e' :
  forallb is_return (take k os) = true ->
  os !! k = Some (Raise e) ->
  forallb is_return (take k' os) = true ->
  os !! k' = Some (Raise e') ->
  k = k' /\ e = e'.
Proof.
  intros Hall Hk Hall' Hk'.
  destruct (lt_eq_lt_dec k k') as [[Hlt| ->]|Hlt].
  - by pose proof (forallb_take_lookup _ _ _ _ Hall' Hk Hlt).
  - by simplify_eq.
  - by pose proof (forallb_take_lookup _ _ _ _ Hall Hk' Hlt).
Qed.

Lemma all_return_no_raise (os : list (outcome (option Data))) k e :
  forallb is_return os = true -> os !! k = Some (Raise e) -> False.
Proof.
  intros Hall Hk. rewrite <- (firstn_all os) in Hall.
  pose proof (forallb_take_lookup _ _ _ _ Hall Hk) as Hret.
  apply lookup_lt_Some in Hk. by specialize (Hret Hk).
Qed.

(** Two schedules under which the call returns give the same result:
    the same value or the same exception, the same slots in the same
    order, the same events of every pipeline and the same log of the
    calling thread.  The order in which the pipelines run and complete
    changes nothing but the interleaving. *)

Theorem result_independent_of_schedule sched1 sched2 r1 r2 :
  pc (process_files sched1) = Returned r1 ->
  pc (process_files sched2) = Returned r2 ->
  r1 = r2 /\
  processed_data (process_files sched1) = processed_data (process_files sched2) /\
  (forall i,
     events_of i (trace (process_files sched1))
       = events_of i (trace (process_files sched2))) /\
  caller_events (trace (process_files sched1))
    = caller_events (trace (process_files sched2)).
Proof.
  intros Hpc1 Hpc2.
  destruct (Z.le_gt_cases (max_concurrency self) 0) as [Hc|Hc].
  { rewrite !(no_executor_state _ Hc) in *. by simplify_eq/=. }
  assert (Hc' : 0 < max_concurrency self) by lia.
  assert (Hr : r1 = r2 /\
    processed_data (process_files sched1) = processed_data (process_files sched2)).
  { destruct (returned_cases _ _ _ _ _ Hc' Hpc1)
      as (_ & _ & [(-> & Hall1 & Hpd1)|(e1 & k1 & -> & Hall1 & Hk1 & Hpd1)]);
    destruct (returned_cases _ _ _ _ _ Hc' Hpc2)
      as (_ & _ & [(-> & Hall2 & Hpd2)|(e2 & k2 & -> & Hall2 & Hk2 & Hpd2)]).
    - by rewrite Hpd1, Hpd2.
    - by destruct (all_return_no_raise _ _ _ Hall1 Hk2).
    - by destruct (all_return_no_raise _ _ _ Hall2 Hk1).
    - destruct (first_raise_unique _ _ _ _ _ Hall1 Hk1 Hall2 Hk2) as [-> ->].
      by rewrite Hpd1, Hpd2. }
  destruct Hr as [-> Hpd]. repeat split; try done.
  - intros i. by rewrite (returned_events _ _ _ Hc' Hpc1),
      (returned_events _ _ _ Hc' Hpc2).
  - rewrite !log_of_caller by done. by rewrite Hpc1, Hpc2.
Qed.

(** ** The call and its pipelines end together *)

(** The pool never deadlocks: when every admitted pipeline ends, the
    call can still return from wherever a schedule has taken it. *)

Theorem never_deadlocks sched :
  0 < max_concurrency self ->
  (forall a, a ∈ admitted file_list -> snd (behaviour a) <> Blocked) ->
  exists more r, pc (process_files (sched ++ more)) = Returned r.
Proof.
  intros Hc Hnb.
  destruct (can_return self server file_list (process_files sched))
    as (more & r & Hr); [by apply reachable_invariant|done..|].
  exists more, r. unfold process_files in *. by rewrite run_app.
Qed.

(** There is no timeout on the call: while the pipeline of one input
    has not ended, the call does not return, under any schedule. *)

Theorem no_return_before_pipelines_end i file p sched r :
  0 < max_concurrency self ->
  file_list !! i = Some file ->
  path file = Some p ->
  snd (behaviour (i, p)) = Blocked ->
  pc (process_files sched) <> Returned r.
Proof.
  intros Hc Hi Hp Hb Hpc.
  by destruct (returned_drained _ _ _ _ _ _ _ _ Hc Hpc Hi Hp) as (k & _ & _ & ?).
Qed.

(** ** Edge cases of the batch *)

(** A call whose executor cannot be built ([max_concurrency] at or
    below zero) raises [ValueError] at once: no slot, no future, no
    event, whatever the inputs and the schedule. *)


Lemma trace_nil (tr : list (origin * event)) :
  caller_events tr = [] -> (forall i, events_of i tr = []) -> tr = [].
Proof.
  destruct tr as [|[[|i] ev] tr]; [done|done|].
  intros _ Hev. specialize (Hev i). unfold events_of in Hev. simpl in Hev.
  by rewrite Nat.eqb_refl in Hev.
Qed.

Lemma no_path_no_admitted :
  (forall file, file ∈ file_list -> path file = None) ->
  admitted file_list = [] /\ absent file_list = length file_list.
Proof.
  intros Hno.
  assert (Hadm : admitted file_list = []).
  { destruct (admitted file_list) as [|[i p] l] eqn:Ha; [done|].
    assert (Hin : (i, p) ∈ admitted file_list) by (rewrite Ha; apply list_elem_of_here).
    apply elem_of_admitted in Hin as (file & Hi & Hp).
    rewrite (Hno file) in Hp; [done|]. by eapply list_elem_of_lookup_2. }
  split; [done|].
  pose proof (absent_admitted file_list (length file_list)) as Hn.
  rewrite firstn_all, Hadm in Hn. simpl in Hn. lia.
Qed.

(** A batch without a single input to convert, the empty batch
    included: nothing is requested and nothing logged under any
    schedule, and the call that returns hands [rollup_data] one [None]
    per input. *)

Theorem nothing_to_convert sched :
  (forall file, file ∈ file_list -> path file = None) ->
  trace (process_files sched) = [] /\
  futures (process_files sched) = [] /\
  (0 < max_concurrency self ->
   forall r,
     pc (process_files sched) = Returned r ->
     r = Return (rollup_data file_list (replicate (length file_list) None))).
Proof.
  intros Hno. destruct (no_path_no_admitted Hno) as [Hadm Habs].
  destruct (Z.le_gt_cases (max_concurrency self) 0) as [Hc|Hc].
  { rewrite (no_executor_state _ Hc). simpl. repeat split; try done. lia. }
  assert (Hc' : 0 < max_concurrency self) by lia.
  pose proof (reachable_invariant sched Hc') as Hinv.
  assert (Hout : outcomes = []).
  { unfold outcomes. by rewrite Hadm. }
  assert (Hfut : futures (process_files sched) = []).
  { destruct (futures (process_files sched)) as [|[i f] l] eqn:Hf; [done|].
    destruct (future_is_admitted (process_files sched) 0 i f Hinv)
      as (file & p & Hi & Hp & _); [by rewrite Hf|].
    rewrite (Hno file) in Hp; [done|]. by eapply list_elem_of_lookup_2. }
  assert (Hpc : expected_log (pc (process_files sched)) = []).
  { destruct Hinv as [_ _ HM]. unfold main_ok in HM.
    destruct (pc (process_files sched)) as [i|k|[e|]|[bfs|e|]]; try done.
    - destruct HM as (k & _ & Hk & _). by rewrite Hout in Hk.
    - destruct HM as [_ [(? & _)|(e' & k & _ & _ & Hk & _)]]; [done|].
      by rewrite Hout in Hk. }
  split; [|split; [done|]].
  - apply trace_nil.
    + by rewrite log_of_caller.
    + intros i. apply (inv_trace _ _ _ _ Hinv). rewrite Hfut. apply not_elem_of_nil.
  - intros _ r Hr.
    destruct (returned_cases _ _ _ _ _ Hc' Hr)
      as (_ & _ & [(-> & _ & ->)|(e & k & _ & _ & Hk & _)]).
    + by rewrite Hout, Habs, app_nil_r.
    + by rewrite Hout in Hk.
Qed.

(** ** Where the slots are *)

Lemma admitted_index i file p :
  file_list !! i = Some file ->
  path file = Some p ->
  admitted file_list !! length (admitted (take i file_list)) = Some (i, p).
Proof.
  intros Hi Hp.
  pose proof (admitted_app (take (S i) file_list) (drop (S i) file_list)) as Happ.
  rewrite take_drop in Happ.
  rewrite Happ, (admitted_take_S _ _ _ Hi), Hp, <- app_assoc.
  by apply list_lookup_middle.
Qed.

Lemma returned_values_lookup (os : list (outcome (option Data))) : forall k d,
  forallb is_return os = true ->
  os !! k = Some (Return d) ->
  returned_values os !! k = Some d.
Proof.
  induction os as [|[d'|e|] os IH]; intros [|k] d Hall Hk; simplify_eq/=;
    try done.
  by apply IH.
Qed.

(** In the slots of a call that returns normally, the result of an
    input with a path stands after the [None]s of all the path-less
    inputs and after the results of the inputs with a path that come
    before it.  When no input lacks a path, that is the input's own
    index. *)

Theorem slot_of_input sched files i file p :
  0 < max_concurrency self ->
  pc (process_files sched) = Returned (Return files) ->
  file_list !! i = Some file ->
  path file = Some p ->
  exists d,
    snd (behaviour (i, p)) = Return d /\
    processed_data (process_files sched)
      !! (absent file_list + length (admitted (take i file_list)))%nat = Some d /\
    (absent file_list = 0%nat ->
     processed_data (process_files sched) !! i = Some d).
Proof.
  intros Hc Hpc Hi Hp.
  destruct (returned_cases _ _ _ _ _ Hc Hpc)
    as (_ & _ & [(_ & Hall & Hpd)|(e & k & ? & _)]); [|done].
  pose proof (admitted_index _ _ _ Hi Hp) as Hk.
  pose proof (outcomes_position self server _ _ _ _ Hk) as Ho.
  destruct (snd (behaviour (i, p))) as [d|e|] eqn:Hb.
  - exists d. split; [done|].
    assert (Hslot : processed_data (process_files sched)
              !! (absent file_list + length (admitted (take i file_list)))%nat
              = Some d).
    { rewrite Hpd, lookup_app_r; rewrite length_replicate; [|lia].
      replace (absent file_list + length (admitted (take i file_list))
               - absent file_list)%nat
        with (length (admitted (take i file_list))) by lia.
      by apply returned_values_lookup. }
    split; [done|]. intros Hz.
    pose proof (absent_admitted file_list i) as Hn.
    pose proof (absent_mono file_list i (length file_list)) as Hm.
    rewrite firstn_all in Hm. apply lookup_lt_Some in Hi.
    replace i with (absent file_list + length (admitted (take i file_list)))%nat
      at 1 by lia.
    done.
  - by destruct (all_return_no_raise _ _ _ Hall Ho).
  - exfalso. rewrite forallb_forall in Hall.
    assert (Hr : is_return (Blocked (A := option Data)) = true); [|done].
    apply Hall, list_elem_of_In. by eapply list_elem_of_lookup_2.
Qed.

(** ** Where the results come from *)

Lemma returned_values_elem (os : list (outcome (option Data))) d :
  d ∈ returned_values os -> Return d ∈ os.
Proof.
  unfold returned_values. rewrite list_elem_of_omap.
  intros ([d'|e|] & Hin & Heq); by simplify_eq.
Qed.

Lemma processed_data_form s :
  invariant s ->
  exists n k,
    processed_data s = replicate n None ++ returned_values (take k outcomes).
Proof.
  intros [_ _ HM]. unfold main_ok in HM.
  destruct (pc s) as [i|k|[e|]|r].
  - destruct HM as [_ ->]. exists (absent (take i file_list)), 0%nat.
    by rewrite take_0, app_nil_r.
  - destruct HM as (_ & _ & ->). eauto.
  - destruct HM as (k & _ & _ & ->). eauto.
  - destruct HM as [_ ->]. exists (absent file_list), (length outcomes).
    by rewrite firstn_all.
  - destruct HM as [_ [(_ & _ & ->)|(e & k & _ & _ & _ & ->)]]; [|eauto].
    exists (absent file_list), (length outcomes). by rewrite firstn_all.
Qed.

(** Every [Data] among the slots, at any moment of the call, is the
    result of the pipeline of an input of this batch: it names the path
    of that input, and its document is one the validator returned. *)

Theorem data_names_its_input sched data :
  Some data ∈ processed_data (process_files sched) ->
  exists i file p,
    file_list !! i = Some file /\
    path file = Some p /\
    snd (behaviour (i, p)) = Return (Some data) /\
    file_path data = path_str p /\
    exists json_content, model_validate json_content = inr (doc data).
Proof.
  intros Hin.
  destruct (Z.le_gt_cases (max_concurrency self) 0) as [Hc|Hc].
  { rewrite (no_executor_state _ Hc) in Hin. simpl in Hin.
    by apply not_elem_of_nil in Hin. }
  assert (Hinv : invariant (process_files sched))
    by (apply reachable_invariant; lia).
  destruct (processed_data_form _ Hinv) as (n & k & Hpd).
  rewrite Hpd in Hin. apply elem_of_app in Hin as [Hin|Hin].
  { by apply elem_of_replicate in Hin as [? _]. }
  apply returned_values_elem in Hin.
  apply list_elem_of_lookup_1 in Hin as [k' Hk'].
  apply lookup_take_Some in Hk' as [Hk' _].
  destruct (outcomes_lookup _ _ _ _ _ Hk') as (i & p & file & _ & Hi & Hp & Hb).
  exists i, file, p. repeat split; try done.
  all: unfold behaviour in Hb; simpl in Hb; symmetry in Hb.
  all: by destruct (convert_data _ _ _ _ Hb).
Qed.

End BatchTraces.



(** * The statements at work on the test double *)

Section Examples.

Import Demo.

Local Notation options := (docling_options self).

(** C1 does not hold of the code.  The [None] of a path-less input is
    appended during the first loop, the results of the pipelines after
    it, in submission order: the index stored with each future is not
    used: a call that returns has put one [None] per path-less input
    first and the results of the pipelines after them.  For an input
    with a path followed by one without, under every schedule, the call
    that returns has put [None] in slot 0 and the converted document of
    input 0 in slot 1; and one schedule at least returns. *)


(** C2 does not hold of the code: the loop of this job ends on
    "failure", the result is requested all the same, and the pipeline
    returns the converted document. *)

Lemma failure_is_fetched :
  snd (poll_loop (tail failed_job) (task "pending") 0)
    = LoopExit (task "failure") [Ok (ok result_body)] /\
  fst (_convert_document failed_job "a.pdf" options)
    = submission "a.pdf" options [] :: one_poll (PStr "t1")
        ++ [Request (GET_result (PStr "t1"))] /\
  snd (_convert_document failed_job "a.pdf" options) = Return (Some data).
Proof. by vm_compute. Qed.

Lemma result_fetched_after_failure_witness :
  exists evs' r,
    _convert_document failed_job "a.pdf" options =
      (submission "a.pdf" options []
         :: one_poll (PStr "t1") ++ Request (GET_result (PStr "t1")) :: evs', r) /\
    forall task',
      subscript task' "task_id" = inr (PStr "t1") ->
      fetch_result [Ok (ok result_body)] "a.pdf" task'
        = (Request (GET_result (PStr "t1")) :: evs', r).
Proof.
  apply (result_fetched_after_failure (H := documents) "a.pdf" options []
           (ok (task "pending")) (task "pending") (tail failed_job)
           (one_poll (PStr "t1")) (task "failure"));
    reflexivity.
Defined.

(** C3 does not hold of the code: in these poll responses no two 502s
    are consecutive and the last response reports "success", yet the
    loop gives up at the sixth 502, one poll short of it. *)

Lemma isolated_errors_exhaust_budget :
  Z.of_nat (longest_high_run flaky_polls 0 0) <= MAX_500_RETRIES /\
  last flaky_polls = Some (ok (task "success")) /\
  poll_loop (map Ok flaky_polls) (task "pending") 0 =
    (flat_map (fun _ => one_poll (PStr "t1")) (take 11 flaky_polls)
       ++ [Log (TooManyHttpFailures 502)],
     LoopReturnNone).
Proof. by vm_compute. Qed.

Lemma poll_loop_reaches_terminal_witness :
  exists evs,
    poll_loop (map Ok bumpy_polls ++ Ok (ok (task "success")) :: [Ok (ok result_body)])
      (task "pending") 0
      = (evs, LoopExit (task "success") [Ok (ok result_body)]) /\
    forallb is_poll evs = true /\
    length evs = (2 * (length bumpy_polls + 1))%nat.
Proof.
  apply (poll_loop_reaches_terminal bumpy_polls (task "pending")
           (ok (task "success")) (task "success") (PStr "success"));
    reflexivity || (vm_compute; lia) || (vm_compute; discriminate).
Defined.

Lemma retry_budget_exhausted_witness :
  _convert_document
    (Ok (ok (task "pending")) :: map Ok (dead_proxy ++ [bad_gateway]) ++ tail slow_job)
    "a.pdf" options =
    (submission "a.pdf" options []
       :: flat_map (fun _ => one_poll (PStr "t1")) (dead_proxy ++ [bad_gateway])
       ++ [Log (TooManyHttpFailures 502)],
     Return None).
Proof.
  refine (proj1 (retry_budget_exhausted (H := documents) "a.pdf" options []
                   (ok (task "pending")) (task "pending") (PStr "t1")
                   dead_proxy bad_gateway (tail slow_job) _ _ _ _ _ _ _));
    reflexivity.
Defined.

(** C8 does not hold of the code: the submission of this job is
    answered with "success", and the pipeline goes from the submission
    to the result fetch without a wait or a poll. *)

Lemma no_poll_when_already_done :
  _convert_document instant_job "a.pdf" options =
    ([submission "a.pdf" options []; Request (GET_result (PStr "t1"))],
     Return (Some data)) /\
  existsb is_poll (fst (_convert_document instant_job "a.pdf" options)) = false.
Proof. by vm_compute. Qed.

Lemma polling_is_guarded_witness :
  _convert_document instant_job "a.pdf" options =
    (submission "a.pdf" options []
       :: fst (fetch_result (tail instant_job) "a.pdf" (task "success")),
     snd (fetch_result (tail instant_job) "a.pdf" (task "success"))) /\
  exists evs,
    fst (_convert_document slow_job "a.pdf" options) =
    submission "a.pdf" options [] :: one_poll (PStr "t1") ++ evs.
Proof.
  split.
  - apply (proj1 (polling_is_guarded (H := documents) "a.pdf" options []
                    (ok (task "success")) (task "success") (tail instant_job)
                    eq_refl eq_refl eq_refl)
             (PStr "success") eq_refl eq_refl).
  - apply (proj2 (polling_is_guarded (H := documents) "a.pdf" options []
                    (ok (task "pending")) (task "pending") (tail slow_job)
                    eq_refl eq_refl eq_refl)
             (PStr "t1") eq_refl eq_refl).
Defined.

Lemma fatal_errors_abort_batch_witness :
  snd (behaviour self refusing (1%nat, "b.pdf")) = Raise (HTTPStatusError 503) /\
  exists j file' p' e',
    (j <= 1)%nat /\
    three_files !! j = Some file' /\
    path file' = Some p' /\
    snd (behaviour self refusing (j, p')) = Raise e' /\
    Raise (A := list BaseFile) (HTTPStatusError 503) = Raise e'.
Proof.
  refine (proj1 (fatal_errors_abort_batch (H := documents) (H0 := files) self refusing three_files _)
            1%nat (Some "b.pdf") "b.pdf" [] (HTTPStatusError 503)
            error_then_drain (Raise (HTTPStatusError 503)) _ _ _ _ _);
    try reflexivity.
  apply (submit_status unavailable []). reflexivity.
Defined.


Lemma no_path_no_pipeline_witness :
  events_of 1
    (trace (process_files self (serve [instant_job]) mixed_batch (in_turn 2 1 4))) = [] /\
  (1%nat ∉ map fst
     (futures (process_files self (serve [instant_job]) mixed_batch (in_turn 2 1 4)))) /\
  processed_data (process_files self (serve [instant_job]) mixed_batch (in_turn 2 1 4))
    !! 0%nat = Some None.
Proof.
  destruct (no_path_no_pipeline (H := documents) (H0 := files) self (serve [instant_job]) mixed_batch
              1%nat None (in_turn 2 1 4) eq_refl eq_refl) as (Hev & Hfut & Hslot).
  split; [exact Hev|]. split; [exact Hfut|].
  apply Hslot; [reflexivity|]. vm_compute. lia.
Defined.

Lemma pool_drained_before_error_returns_witness :
  exists k,
    futures (process_files self refusing three_files error_then_drain) !! k
      = Some (2%nat, Finished (snd (behaviour self refusing (2%nat, "c.pdf")))) /\
    events_of 2 (trace (process_files self refusing three_files error_then_drain))
      = fst (behaviour self refusing (2%nat, "c.pdf")) /\
    snd (behaviour self refusing (2%nat, "c.pdf")) <> Blocked.
Proof.
  refine (proj1 (pool_drained_before_error_returns (H := documents) (H0 := files) self refusing three_files
                   error_then_drain (HTTPStatusError 503) _ _)
            2%nat (Some "c.pdf") "c.pdf" _ _);
    reflexivity.
Defined.

(** The calling thread has met the exception, the third pipeline is
    still running: the call cannot return yet. *)

Example caller_waits_for_running_pipeline :
  pc (process_files self refusing three_files error_first)
    = Leaving (Some (HTTPStatusError 503)) /\
  map fuel (futures (process_files self refusing three_files error_first))
    = [0; 0; 4]%nat /\
  main_step self refusing three_files
    (process_files self refusing three_files error_first) = None.
Proof. by vm_compute. Qed.


End Examples.

(** * The further statements at work on the test double *)

Section MoreExamples.

Import Demo.

Local Notation options := (docling_options self).

Lemma give_up_only_when_budget_spent_witness :
  exists rs r rest evs',
    map Ok flaky_polls = map Ok rs ++ Ok r :: rest /\
    forallb keeps_polling rs = true /\
    is_high r = true /\
    Z.of_nat (length (List.filter is_high (rs ++ [r]))) = MAX_500_RETRIES + 1 /\
    fst (poll_loop (map Ok flaky_polls) (task "pending") 0)
      = evs' ++ [Log (TooManyHttpFailures (status_code r))] /\
    forallb is_poll evs' = true.
Proof.
  apply (give_up_only_when_budget_spent (map Ok flaky_polls) (task "pending")).
  reflexivity.
Defined.

Lemma valid_payload_is_converted_witness :
  _convert_document slow_job "a.pdf" options =
    (submission "a.pdf" options []
       :: one_poll (PStr "t1") ++ [Request (GET_result (PStr "t1"))],
     Return (Some data)).
Proof.
  apply (valid_payload_is_converted (H := documents) "a.pdf" options []
           (ok (task "pending")) (task "pending") (tail slow_job)
           (one_poll (PStr "t1")) (task "success") (PStr "t1")
           (ok result_body) [] result_body
           [("json_content", converted)] converted converted);
    reflexivity.
Defined.

Lemma invalid_payload_is_skipped_witness :
  _convert_document
    [Ok (ok (task "success")); Ok (ok rejected_body)] "a.pdf" options =
    (submission "a.pdf" options []
       :: [] ++ [Request (GET_result (PStr "t1"));
                 Log (ValidationFailed "Input should be an object")],
     Return None).
Proof.
  apply (invalid_payload_is_skipped (H := documents) "a.pdf" options []
           (ok (task "success")) (task "success") [Ok (ok rejected_body)]
           [] (task "success") (PStr "t1")
           (ok rejected_body) [] rejected_body
           [("json_content", PStr "not a document")] (PStr "not a document"));
    reflexivity.
Defined.

Lemma options_override_defaults_witness :
  subscript (docling_options custom) "to_formats" = inr (PList [PStr "md"]) /\
  subscript (docling_options custom) "return_as_file" = inr (PBool false) /\
  subscript (docling_options custom) "do_ocr" = inr (PBool false) /\
  subscript (docling_options custom) "ocr_lang" = inl (KeyError "ocr_lang").
Proof.
  assert (Hnd : NoDup (map fst (docling_serve_opts custom))).
  { apply (bool_decide_unpack _). reflexivity. }
  split; [|split; [|split]].
  - apply (options_override_defaults custom "to_formats" Hnd).
  - apply (options_override_defaults custom "return_as_file" Hnd).
  - apply (options_override_defaults custom "do_ocr" Hnd).
  - apply (options_override_defaults custom "ocr_lang" Hnd).
Defined.

Lemma caller_logs_caught_errors_witness :
  pc (process_files self garbled one_file (in_turn 1 1 5))
    = Returned (Raise TypeError) /\
  caller_events (trace (process_files self garbled one_file (in_turn 1 1 5))) = [] /\
  caller_events (trace (process_files self refusing three_files error_then_drain))
    = [Log ErrorOccurred].
Proof.
  split; [reflexivity|]. split.
  - apply (caller_logs_caught_errors (H := documents) (H0 := files)
             self garbled one_file (in_turn 1 1 5)). reflexivity.
  - apply (caller_logs_caught_errors (H := documents) (H0 := files)
             self refusing three_files error_then_drain). reflexivity.
Defined.

Lemma pipeline_events_in_order_witness :
  events_of 2 (trace (process_files self refusing three_files error_first))
    `prefix_of` fst (behaviour self refusing (2%nat, "c.pdf")).
Proof.
  apply (pipeline_events_in_order (H := documents) (H0 := files)
           self refusing three_files error_first 2%nat (Some "c.pdf"));
    reflexivity.
Defined.

Lemma submissions_carry_options_witness :
  exists file p bytes,
    three_files !! 2%nat = Some file /\
    path file = Some p /\
    read_bytes p = Some bytes /\
    submission "c.pdf" options [] = submission p options bytes.
Proof.
  apply (submissions_carry_options (H := documents) (H0 := files)
           self refusing three_files error_first 2%nat).
  apply list_elem_of_In. vm_compute. tauto.
Defined.

Lemma result_independent_of_schedule_witness :
  Raise (A := list BaseFile) (HTTPStatusError 503) = Raise (HTTPStatusError 503) /\
  processed_data (process_files self refusing three_files error_then_drain)
    = processed_data (process_files self refusing three_files (in_turn 3 3 8)) /\
  (forall i,
     events_of i (trace (process_files self refusing three_files error_then_drain))
       = events_of i (trace (process_files self refusing three_files (in_turn 3 3 8)))) /\
  caller_events (trace (process_files self refusing three_files error_then_drain))
    = caller_events (trace (process_files self refusing three_files (in_turn 3 3 8))).
Proof.
  apply (result_independent_of_schedule (H := documents) (H0 := files)
           self refusing three_files error_then_drain (in_turn 3 3 8));
    reflexivity.
Defined.

Lemma never_deadlocks_witness :
  exists more r,
    pc (process_files self refusing three_files (error_first ++ more)) = Returned r.
Proof.
  apply (never_deadlocks (H := documents) (H0 := files)
           self refusing three_files error_first); [reflexivity|].
  intros a Ha.
  change (admitted three_files)
    with [(0%nat, "a.pdf"); (1%nat, "b.pdf"); (2%nat, "c.pdf")] in Ha.
  apply list_elem_of_In in Ha.
  destruct Ha as [<-|[<-|[<-|[]]]]; vm_compute; discriminate.
Defined.

Lemma no_return_before_pipelines_end_witness :
  pc (process_files self stuck one_file (in_turn 1 1 9))
    <> Returned (Raise RequestError).
Proof.
  apply (no_return_before_pipelines_end (H := documents) (H0 := files)
           self stuck one_file 0%nat (Some "a.pdf") "a.pdf");
    reflexivity.
Defined.


Lemma nothing_to_convert_witness :
  trace (process_files self refusing no_paths (in_turn 2 0 0)) = [] /\
  futures (process_files self refusing no_paths (in_turn 2 0 0)) = [] /\
  (0 < max_concurrency self ->
   forall r,
     pc (process_files self refusing no_paths (in_turn 2 0 0)) = Returned r ->
     r = Return (rollup_data no_paths (replicate (length no_paths) None))).
Proof.
  apply (nothing_to_convert (H := documents) (H0 := files)
           self refusing no_paths (in_turn 2 0 0)).
  intros file Hin. apply list_elem_of_In in Hin.
  destruct Hin as [<-|[<-|[]]]; reflexivity.
Defined.

Lemma slot_of_input_witness :
  exists d,
    snd (behaviour self (serve [instant_job]) (0%nat, "a.pdf")) = Return d /\
    processed_data (process_files self (serve [instant_job]) mixed_batch (in_turn 2 1 4))
      !! (absent mixed_batch + length (admitted (take 0 mixed_batch)))%nat = Some d /\
    (absent mixed_batch = 0%nat ->
     processed_data (process_files self (serve [instant_job]) mixed_batch (in_turn 2 1 4))
       !! 0%nat = Some d).
Proof.
  apply (slot_of_input (H := documents) (H0 := files)
           self (serve [instant_job]) mixed_batch (in_turn 2 1 4)
           mixed_batch 0%nat (Some "a.pdf") "a.pdf");
    reflexivity.
Defined.

Lemma data_names_its_input_witness :
  exists i file p,
    mixed_batch !! i = Some file /\
    path file = Some p /\
    snd (behaviour self (serve [instant_job]) (i, p)) = Return (Some data) /\
    file_path data = path_str p /\
    exists json_content, model_validate json_content = inr (doc data).
Proof.
  apply (data_names_its_input (H := documents) (H0 := files)
           self (serve [instant_job]) mixed_batch (in_turn 2 1 4) data).
  apply list_elem_of_In. vm_compute. tauto.
Defined.

End MoreExamples.
